(** * dgp/utils/visualization.py: rendering helpers over shared raster buffers

    A shallow embedding of the visualization module: the status bar, the
    mosaic assembler, the 2D box renderer, the point-cloud-on-image renderer
    and the bird's-eye-view canvas [BEVImage].

    Modelling choices.
    - numpy float values are exact rationals ([Q]); [int(x)] and
      [astype(int)] truncate toward zero ([Qtrunc]).  NaN and infinities
      are outside the model.
    - An image is a raster of 8-bit RGB pixels kept as rows of pixels
      together with its width (a numpy array knows its shape even when it
      has no rows).
    - Python objects live in a heap of rasters addressed by handles, so
      that in-place mutation and fresh allocation can be told apart.
    - A Python exception is a [Raise] result; the heap survives it.
    - The drawing library (cv2) is an interface: each primitive is given by
      the set of pixels it covers, which the model then overwrites. *)

From Stdlib Require Import ZArith QArith Qabs Lia Bool.
From stdpp Require Import base option list strings vector.

Local Open Scope Z_scope.

(** ** Exceptions and results *)

Inductive exn : Type :=
| AssertionError (msg : string)
| IndexError
| ZeroDivisionError
| ValueError
| CvError
| DanglingHandle.

Inductive result (A : Type) : Type :=
| Ok (a : A)
| Raise (e : exn).
Arguments Ok {A} a.
Arguments Raise {A} e.

Definition is_ok {A} (r : result A) : bool :=
  match r with Ok _ => true | Raise _ => false end.

(** ** Numbers *)

(** [int(x)] on a float: truncation toward zero. *)
Definition Qtrunc (q : Q) : Z := Z.quot (Qnum q) (Zpos (Qden q)).

Definition Qleb (x y : Q) : bool := Qle_bool x y.
Definition Qltb (x y : Q) : bool := negb (Qle_bool y x).

(** [np.ceil(a / b)] on integers [a], [b] with [b <> 0]. *)
Definition ceil_div (a b : Z) : Z := - ((- a) / b).

(** [range(n)] and [range(lo, hi)] as lists of integers. *)
Definition range (n : Z) : list Z := map Z.of_nat (seq 0 (Z.to_nat n)).
Definition range_from (lo hi : Z) : list Z :=
  map (fun k => lo + Z.of_nat k) (seq 0 (Z.to_nat (hi - lo))).

(** ** Colors and rasters *)

Definition color : Type := Z * Z * Z.
Definition pixel : Type := Z * Z * Z.

Definition COLOR_RED : color := (255, 0, 0).
Definition COLOR_GREEN : color := (0, 255, 0).
Definition COLOR_BLUE : color := (0, 0, 255).
Definition COLOR_GRAY : color := (100, 100, 100).
Definition COLOR_DARKGRAY : color := (50, 50, 50).
Definition COLOR_WHITE : color := (255, 255, 255).

Definition black : pixel := (0, 0, 0).

Record image : Type := Image {
  im_width : nat;
  im_rows : list (list pixel)
}.

Definition im_height (img : image) : nat := length (im_rows img).

(** [img.shape[:2]] *)
Definition shape (img : image) : Z * Z :=
  (Z.of_nat (im_height img), Z.of_nat (im_width img)).

Definition well_formed (img : image) : Prop :=
  Forall (fun r => length r = im_width img) (im_rows img).

(** [np.zeros((h, w, 3), dtype=np.uint8)] *)
Definition zeros (h w : nat) : image :=
  Image w (replicate h (replicate w black)).

(** [np.zeros_like(img)] *)
Definition zeros_like (img : image) : image :=
  zeros (im_height img) (im_width img).

(** Reading the pixel in column [u] of row [v]. *)
Definition px_at (img : image) (u v : Z) : option pixel :=
  if (0 <=? u) && (0 <=? v)
  then im_rows img !! Z.to_nat v ≫= fun r => r !! Z.to_nat u
  else None.

(** A clipped write, as the drawing primitives do it: coordinates outside
    the raster are skipped. *)
Definition set_px (img : image) (p : Z * Z) (c : color) : image :=
  let '(u, v) := p in
  if (0 <=? u) && (0 <=? v)
  then Image (im_width img)
             (alter (fun r => <[Z.to_nat u := c]> r) (Z.to_nat v) (im_rows img))
  else img.

(** Overwrite every pixel of a footprint with one color. *)
Definition paint (img : image) (pts : list (Z * Z)) (c : color) : image :=
  fold_left (fun im p => set_px im p c) pts img.

(** numpy integer indexing along an axis of length [n]: negative indices
    count from the end, anything else out of range is an [IndexError]. *)
Definition np_index (n : nat) (i : Z) : option nat :=
  if (0 <=? i) && (i <? Z.of_nat n) then Some (Z.to_nat i)
  else if (- Z.of_nat n <=? i) && (i <? 0) then Some (Z.to_nat (i + Z.of_nat n))
  else None.

(** [img[v, u] = c] for one index pair. *)
Definition np_setitem (img : image) (v u : Z) (c : color) : result image :=
  match np_index (im_height img) v, np_index (im_width img) u with
  | Some r, Some k =>
      Ok (Image (im_width img) (alter (fun row => <[k := c]> row) r (im_rows img)))
  | _, _ => Raise IndexError
  end.

(** [img[vs, us] = cs] with index arrays: the pairs are checked first, then
    written in order (a later duplicate overwrites an earlier one). *)
Fixpoint np_scatter (img : image) (writes : list (Z * Z * color)) : result image :=
  match writes with
  | [] => Ok img
  | (u, v, c) :: rest =>
      match np_setitem img v u c with
      | Ok img' => np_scatter img' rest
      | Raise e => Raise e
      end
  end.

(** [np.maximum(a, b)] on two rasters, per channel. *)
Definition px_max (p q : pixel) : pixel :=
  let '(r1, g1, b1) := p in
  let '(r2, g2, b2) := q in
  (Z.max r1 r2, Z.max g1 g2, Z.max b1 b2).

Definition np_maximum (a b : image) : image :=
  Image (im_width a) (zip_with (zip_with px_max) (im_rows a) (im_rows b)).

(** [np.hstack] of rasters: all must have the same number of rows. *)
Definition hstack2 (a b : image) : image :=
  Image (im_width a + im_width b) (zip_with app (im_rows a) (im_rows b)).

Definition np_hstack (tiles : list image) : result image :=
  match tiles with
  | [] => Raise ValueError
  | t :: rest =>
      if forallb (fun x => Nat.eqb (im_height x) (im_height t)) rest
      then Ok (fold_left hstack2 rest t)
      else Raise ValueError
  end.

(** [np.vstack] of rasters: all must have the same width. *)
Definition vstack2 (a b : image) : image :=
  Image (im_width a) (im_rows a ++ im_rows b).

Definition np_vstack (strips : list image) : result image :=
  match strips with
  | [] => Raise ValueError
  | t :: rest =>
      if forallb (fun x => Nat.eqb (im_width x) (im_width t)) rest
      then Ok (fold_left vstack2 rest t)
      else Raise ValueError
  end.

(** A black frame of the given margins around a raster. *)
Definition add_border (img : image) (top bottom left right : nat) : image :=
  let w := (left + im_width img + right)%nat in
  Image w
    (replicate top (replicate w black)
     ++ map (fun r => replicate left black ++ r ++ replicate right black) (im_rows img)
     ++ replicate bottom (replicate w black)).

(** [cv2.copyMakeBorder(img, top, bottom, left, right, cv2.BORDER_CONSTANT, 0)]:
    a negative margin is rejected. *)
Definition copyMakeBorder (img : image) (top bottom left right : Z) : result image :=
  if (0 <=? top) && (0 <=? bottom) && (0 <=? left) && (0 <=? right)
  then Ok (add_border img (Z.to_nat top) (Z.to_nat bottom)
                      (Z.to_nat left) (Z.to_nat right))
  else Raise CvError.

(** ** The drawing library *)

Inductive line_type : Type := LINE_8 | LINE_AA.

(** One call of a drawing primitive, with the arguments the module passes
    (the font is [cv2.FONT_HERSHEY_SIMPLEX] in every text call). *)
Inductive draw_cmd : Type :=
| Rectangle (pt1 pt2 : Z * Z) (c : color) (thickness : Z)
| Polylines (pts : list (list (Z * Z))) (isClosed : bool) (c : color) (thickness : Z)
| Line (pt1 pt2 : Z * Z) (c : color) (thickness : Z)
| Circle (center : Z * Z) (radius : Z) (c : color) (thickness : Z)
| PutText (text : string) (org : Z * Z) (fontScale : Q) (c : color)
          (thickness : Z) (lineType : line_type).

(** The rasterisers of cv2 are collaborators of this module.  A shape
    primitive is known by the pixels it covers (independent of the raster's
    content; pixels off the raster are clipped by [paint]).  Text is drawn
    by [put_text], which may blend with the content under [LINE_AA].
    [resize img w h] yields a raster of [h] rows and [w] columns. *)
Class Cv2 : Type := {
  rect_px : Z * Z -> Z * Z -> Z -> list (Z * Z);
  poly_px : list (Z * Z) -> bool -> Z -> list (Z * Z);
  line_px : Z * Z -> Z * Z -> Z -> list (Z * Z);
  circle_px : Z * Z -> Z -> Z -> list (Z * Z);
  put_text : image -> string -> Z * Z -> Q -> color -> Z -> line_type -> image;
  resize : image -> nat -> nat -> image;
  dilate : image -> nat -> nat -> image;
  resize_width : forall img w h, im_width (resize img w h) = w;
  resize_height : forall img w h, im_height (resize img w h) = h;
  resize_well_formed : forall img w h, well_formed (resize img w h)
}.

(** The array and colormap libraries used by the point-cloud renderer:
    [np.percentile] and matplotlib's ["jet"] colormap (RGB in [0, 1]). *)
Class NumLib : Type := {
  np_percentile : list Q -> Q -> Q;
  jet : Q -> Q * Q * Q
}.

Section Drawing.
Context `{cv : Cv2}.

(** [cv2.polylines] draws its polygons one after the other. *)
Definition cv2_polylines (img : image) (polys : list (list (Z * Z)))
    (isClosed : bool) (c : color) (thickness : Z) : image :=
  fold_left (fun im poly => paint im (poly_px poly isClosed thickness) c) polys img.

(** The effect of one drawing call on a raster. *)
Definition cv2_draw (cmd : draw_cmd) (img : image) : image :=
  match cmd with
  | Rectangle p1 p2 c t => paint img (rect_px p1 p2 t) c
  | Polylines polys closed c t => cv2_polylines img polys closed c t
  | Line p1 p2 c t => paint img (line_px p1 p2 t) c
  | Circle ctr r c t => paint img (circle_px ctr r t) c
  | PutText s org fs c t lt => put_text img s org fs c t lt
  end.

(** [cv2.resize(img, dsize=(w, h))]: an empty source or an empty target
    size is rejected. *)
Definition cv2_resize (img : image) (dsize : Z * Z) : result image :=
  let '(w, h) := dsize in
  if (0 <? w) && (0 <? h)
     && negb (Nat.eqb (im_height img) 0) && negb (Nat.eqb (im_width img) 0)
  then Ok (resize img (Z.to_nat w) (Z.to_nat h))
  else Raise CvError.

End Drawing.

(** ** The heap of rasters and the monad of the module's functions *)

Abbreviation loc := nat.
Abbreviation heap := (list image).

(** A computation reads and updates the heap and returns or raises; the
    heap it leaves behind is kept in both cases. *)
Definition M (A : Type) : Type := heap -> result A * heap.

Definition ret {A} (a : A) : M A := fun h => (Ok a, h).
Definition raise {A} (e : exn) : M A := fun h => (Raise e, h).
Definition bind {A B} (m : M A) (k : A -> M B) : M B :=
  fun h => match m h with
           | (Ok a, h') => k a h'
           | (Raise e, h') => (Raise e, h')
           end.

Declare Scope py_scope.
Delimit Scope py_scope with py.
Notation "'let!' x ':=' m 'in' k" := (bind m (fun x => k))
  (at level 10, x pattern, m at level 100, k at level 200) : py_scope.
Notation "m '>>' k" := (bind m (fun _ => k))
  (at level 90, right associativity) : py_scope.
Local Open Scope py_scope.

(** Lifting a pure fallible step. *)
Definition lift {A} (r : result A) : M A := fun h => (r, h).

(** [assert b, msg] *)
Definition assert (b : bool) (msg : string) : M unit :=
  if b then ret tt else raise (AssertionError msg).

(** Reading, allocating and overwriting a raster. *)
Definition load (l : loc) : M image :=
  fun h => match h !! l with
           | Some img => (Ok img, h)
           | None => (Raise DanglingHandle, h)
           end.

Definition alloc (img : image) : M loc :=
  fun h => (Ok (length h), h ++ [img]).

Definition store (l : loc) (img : image) : M unit :=
  fun h => (Ok tt, <[l := img]> h).

(** An in-place update of the raster behind a handle. *)
Definition modify (l : loc) (f : image -> image) : M unit :=
  let! img := load l in store l (f img).

Definition modify_res (l : loc) (f : image -> result image) : M unit :=
  let! img := load l in
  let! img' := lift (f img) in
  store l img'.

(** [for idx, x in enumerate(xs): body] *)
Fixpoint for_enum_from {A} (idx : nat) (xs : list A) (body : nat -> A -> M unit) : M unit :=
  match xs with
  | [] => ret tt
  | x :: rest => body idx x >> for_enum_from (S idx) rest body
  end.

Definition for_enum {A} (xs : list A) (body : nat -> A -> M unit) : M unit :=
  for_enum_from 0 xs body.

(** [for x in xs: body] *)
Definition for_each {A} (xs : list A) (body : A -> M unit) : M unit :=
  for_enum xs (fun _ x => body x).

(** [xs[i]] on a Python list, for a non-negative index. *)
Definition py_get {A} (xs : list A) (i : nat) : M A :=
  match xs !! i with
  | Some x => ret x
  | None => raise IndexError
  end.

(** Truthiness of an optional list argument: [None] and [[]] are false. *)
Definition truthy {A} (xs : option (list A)) : bool :=
  match xs with
  | None => false
  | Some [] => false
  | Some (_ :: _) => true
  end.

(** Binding on plain results, for the steps that touch no raster handle. *)
Definition rbind {A B} (r : result A) (k : A -> result B) : result B :=
  match r with Ok a => k a | Raise e => Raise e end.
Notation "'let?' x ':=' r 'in' k" := (rbind r (fun x => k))
  (at level 10, x pattern, r at level 100, k at level 200) : py_scope.

(** [[f(x) for x in xs]] where [f] may raise. *)
Fixpoint map_res {A B} (f : A -> result B) (xs : list A) : result (list B) :=
  match xs with
  | [] => Ok []
  | x :: rest =>
      let? y := f x in
      let? ys := map_res f rest in
      Ok (y :: ys)
  end.

(** [xs[i]] without a heap. *)
Definition get_res {A} (xs : list A) (i : nat) : result A :=
  match xs !! i with Some x => Ok x | None => Raise IndexError end.

(** [xs[-1]] *)
Definition last_res {A} (xs : list A) : result A :=
  match last xs with Some x => Ok x | None => Raise IndexError end.

(** [range(lo, hi, step)]: [step = 0] is a [ValueError]; otherwise the
    range has [max(0, ceil((hi - lo) / step))] elements. *)
Definition range_step (lo hi step : Z) : result (list Z) :=
  if step =? 0 then Raise ValueError
  else Ok (map (fun k => lo + Z.of_nat k * step)
               (seq 0 (Z.to_nat (ceil_div (hi - lo) step)))).

(** [xs[a:b]] for [0 <= a]; the module slices with no other bounds. *)
Definition slice {A} (xs : list A) (a b : Z) : list A :=
  take (Z.to_nat (b - a)) (drop (Z.to_nat a) xs).

(** Boolean-mask selection [xs[mask]]. *)
Definition mask_select {A} (mask : list bool) (xs : list A) : list A :=
  map snd (filter (fun bx => fst bx = true) (zip mask xs)).

(** ** Geometry *)

Definition point3 : Type := Q * Q * Q.
Definition bbox2d : Type := Q * Q * Q * Q.

Definition coord (p : point3) (k : nat) : Q :=
  let '(x, y, z) := p in
  match k with O => x | S O => y | _ => z end.

(** [pts[:, axis]] on an N x 3 array. *)
Definition np_column (pts : list point3) (axis : Z) : result (list Q) :=
  match np_index 3 axis with
  | Some k => Ok (map (fun p => coord p k) pts)
  | None => Raise IndexError
  end.

(** Modelled from the spec: the class [Camera] of [dgp.utils.camera] is not
    among the sources.  The spec gives it an extrinsic transform mapping
    world points into the camera frame and a [project] operation mapping
    camera-frame points to pixel coordinates through the intrinsic matrix.
    [p_cw] is the transform applied to one point ([camera.p_cw * Xw]) and
    [K_project] the projection with the intrinsics alone
    ([Camera(K=camera.K).project]). *)
Record Camera : Type := {
  p_cw : point3 -> point3;
  K_project : point3 -> Q * Q
}.

(** Modelled from the spec: the class of 3D boxes is not among the sources.
    The spec gives it one contract, the eight corner coordinates in 3D
    ([bbox.corners], an 8 x 3 array). *)
Record BoundingBox3D : Type := {
  corners : vec point3 8
}.

(** [np.int32([[x, y], [x + w, y], [x + w, y + h], [x, y + h]])] *)
Definition box_polygon (b : bbox2d) : list (Z * Z) :=
  let '(x, y, w, h) := b in
  [ (Qtrunc x, Qtrunc y);
    (Qtrunc (x + w), Qtrunc y);
    (Qtrunc (x + w), Qtrunc (y + h));
    (Qtrunc x, Qtrunc (y + h)) ].

(** Python's [max(a, b)] on two numbers. *)
Definition py_max (a b : Q) : Q := if Qltb a b then b else a.

(** [np.clip(x, lo, hi)] *)
Definition np_clip (x lo hi : Q) : Q :=
  if Qltb x lo then lo else if Qltb hi x then hi else x.

(** [.astype(np.uint8)] on a non-negative float. *)
Definition to_uint8 (q : Q) : Z := Qtrunc q mod 256.

(** The keep-mask of the point-cloud-on-image renderer for one point:
    [(uv >= 0).all(axis=1)], [uv[:, 0] < W], [uv[:, 1] < H], [z_c > 0]. *)
Definition in_view_image (H W : Z) (uv : Q * Q) (z : Q) : bool :=
  (Qleb 0 (fst uv) && Qleb 0 (snd uv))
  && Qltb (fst uv) (inject_Z W)
  && Qltb (snd uv) (inject_Z H)
  && Qltb 0 z.

(** The keep-mask of the BEV point-cloud renderer for one point:
    [(point_cloud2d >= 0).all(axis=1)], [[:, 0] < W], [[:, 1] < H]. *)
Definition in_view_bev (H W : Z) (uv : Q * Q) : bool :=
  (Qleb 0 (fst uv) && Qleb 0 (snd uv))
  && Qltb (fst uv) (inject_Z W)
  && Qltb (snd uv) (inject_Z H).

Definition trunc2 (uv : Q * Q) : Z * Z := (Qtrunc (fst uv), Qtrunc (snd uv)).

(** The bird's-eye-view canvas: its configuration and the handle of the
    raster it owns. *)
Record BEVImage : Type := {
  _metric_width : Q;
  _metric_height : Q;
  _pixels_per_meter : Q;
  _xaxis : Z;
  _yaxis : Z;
  _center_pixel : Z * Z;
  data : loc
}.

(** The metric-to-pixel transform shared by the two BEV renderers:
    [center[0] + x * ppm] and [center[1] - y * ppm]. *)
Definition bev_pixel (self : BEVImage) (xy : Q * Q) : Q * Q :=
  (inject_Z (fst (_center_pixel self)) + fst xy * _pixels_per_meter self,
   inject_Z (snd (_center_pixel self)) - snd xy * _pixels_per_meter self)%Q.

(** ** The functions of the module *)

Section Visualization.
Context `{cv : Cv2} `{nl : NumLib}.

(** A drawing call on the raster behind a handle: cv2 draws in place. *)
Definition cv2 (l : loc) (cmd : draw_cmd) : M unit := modify l (cv2_draw cmd).

(** [print_status(image, text)] *)
Definition print_status (image : loc) (text : string) : M loc :=
  let! im := load image in
  let '(H, W) := shape im in
  let status_xmax := W in
  let status_ymin := H - 40 in
  let text_offset := 5 in
  cv2 image (Rectangle (0, status_ymin) (status_xmax, H) COLOR_DARKGRAY (-1)) >>
  cv2 image (PutText text (text_offset, H - text_offset) (8 # 10)
                     COLOR_WHITE 1 LINE_8) >>
  ret image.

(** The tile loop of [mosaic]: [for j in range(grid_width * grid_height)]. *)
Definition mosaic_tile (items : list image) (N : Z) (target_shape : Z * Z)
    (acc : result (list image)) (j : Z) : result (list image) :=
  let? mosaic_items := acc in
  if j <? N then
    let? item := get_res items (Z.to_nat j) in
    let? im := cv2_resize item target_shape in
    Ok (mosaic_items ++ [im])
  else
    let? prev := last_res mosaic_items in
    Ok (mosaic_items ++ [zeros_like prev]).

(** The tiles of the mosaic, resized (or black beyond the last item) and
    then padded: the list [mosaic_items] of [mosaic] once
    [[im_pad(im) for im in mosaic_items]] has run. *)
Definition mosaic_items (items : list image) (scale : Q) (pad : Z)
    (grid_width grid_height : Z) : result (list image) :=
  let N := Z.of_nat (length items) in
  let? first := get_res items 0 in
  let input_size := shape first in
  let target_shape :=
    (Qtrunc (inject_Z (snd input_size) * scale),
     Qtrunc (inject_Z (fst input_size) * scale)) in
  let? mosaic_items :=
    fold_left (mosaic_tile items N target_shape)
              (range (grid_width * grid_height)) (Ok []) in
  let im_pad := fun im => copyMakeBorder im pad pad pad pad in
  map_res im_pad mosaic_items.

(** The grid width in force: [grid_width if grid_width else
    np.ceil(np.sqrt(N))]. *)
Definition mosaic_grid_width (N : Z) (grid_width : option Z) : Z :=
  match grid_width with
  | Some g => if g =? 0 then Z.sqrt_up N else g
  | None => Z.sqrt_up N
  end.

(** [mosaic(items, scale, pad, grid_width)].  The inputs are only read and
    the mosaic is a new array, so the function is modelled on values. *)
Definition mosaic (items : list image) (scale : Q) (pad : Z)
    (grid_width : option Z) : result image :=
  let N := Z.of_nat (length items) in
  if negb (0 <? N) then Raise (AssertionError "No items to mosaic!") else
  let grid_width := mosaic_grid_width N grid_width in
  let grid_height := ceil_div N grid_width in
  let? mosaic_items := mosaic_items items scale pad grid_width grid_height in
  let? starts := range_step 0 (Z.of_nat (length mosaic_items)) grid_width in
  let? hstack :=
    map_res (fun j => np_hstack (slice mosaic_items j (j + grid_width))) starts in
  if (1 <? length hstack)%nat then np_vstack hstack else get_res hstack 0.

(** [render_bbox2d_on_image(img, bboxes2d, colors, texts)] *)
Definition render_bbox2d_on_image (img : loc) (bboxes2d : list bbox2d)
    (colors : option (list color)) (texts : option (list string)) : M loc :=
  let boxes := map box_polygon bboxes2d in
  match colors with
  | None => cv2 img (Polylines boxes true COLOR_RED 2)
  | Some colors =>
      assert (length boxes =? length colors)%nat "len(boxes) != len(colors)" >>
      for_enum boxes (fun idx box =>
        let! c := py_get colors idx in
        cv2 img (Polylines [box] true c 2))
  end >>
  (if truthy texts then
     let texts := default [] texts in
     assert (length boxes =? length texts)%nat "len(boxes) != len(texts)" >>
     for_enum boxes (fun idx box =>
       let! t := py_get texts idx in
       let! org := py_get box 0 in
       cv2 img (PutText t org 1 COLOR_WHITE 2 LINE_AA))
   else ret tt) >>
  ret img.

(** The color of one point from its normalised inverse depth:
    [(cmap(np.clip(x, 0., 1.0))[:3] * 255).astype(np.uint8)]. *)
Definition shade (x : Q) : color :=
  let '(r, g, b) := jet (np_clip x 0 1) in
  (to_uint8 (r * 255), to_uint8 (g * 255), to_uint8 (b * 255)).

(** The per-point colors of the point-cloud renderer: inverse depth,
    normalised by its percentile, clipped and sent through the colormap. *)
Definition depth_colors (z_c : list Q) (percentile : Q) : list color :=
  let zinv_c := map (fun z => 1 / (z + (1 # 1000000)))%Q z_c in
  let norm := np_percentile zinv_c percentile in
  let zinv_c := map (fun zi => zi / norm)%Q zinv_c in
  map shade zinv_c.

(** The pixels and colors the point-cloud renderer keeps for a raster of
    [H] rows and [W] columns: projection, coloring, the [in_view] mask and
    the cast of the kept coordinates to integers. *)
Definition pointcloud_writes (camera : Camera) (Xw : list point3)
    (percentile : Q) (H W : Z) : list (Z * Z * color) :=
  let Xc := map (p_cw camera) Xw in
  let uv := map (K_project camera) Xc in
  let z_c := map (fun p => coord p 2) Xc in
  let colors := depth_colors z_c percentile in
  let in_view := zip_with (in_view_image H W) uv z_c in
  let uv := map trunc2 (mask_select in_view uv) in
  let colors := mask_select in_view colors in
  zip uv colors.

(** [render_pointcloud_on_image(img, camera, Xw, colormap, percentile)].
    The [colormap] argument is not read: the colormap is always ["jet"].
    The overlay [vis] never leaves the function, so it is kept as a value;
    [np.maximum(vis, img)] builds the array that is returned, which gets a
    handle of its own. *)
Definition render_pointcloud_on_image (img : loc) (camera : Camera)
    (Xw : list point3) (colormap : string) (percentile : Q) : M loc :=
  let! im := load img in
  let '(H, W) := shape im in
  let vis := zeros_like im in
  let! vis := lift (np_scatter vis (pointcloud_writes camera Xw percentile H W)) in
  let vis := dilate vis 5 5 in
  alloc (np_maximum vis im).

(** [BEVImage.__init__] *)
Definition BEVImage_init (metric_width metric_height pixels_per_meter : Q)
    (polar_step_size_meters xaxis yaxis : Z) : M BEVImage :=
  assert (negb (xaxis =? yaxis)) "Provide different x and y axis coordinates" >>
  let width_px := Qtrunc (metric_width * pixels_per_meter) in
  let height_px := Qtrunc (metric_height * pixels_per_meter) in
  let center_pixel := (width_px / 2, height_px / 2) in
  let! raster :=
    (if (0 <=? height_px) && (0 <=? width_px)
     then alloc (zeros (Z.to_nat height_px) (Z.to_nat width_px))
     else raise ValueError) in
  let! rings :=
    (if polar_step_size_meters =? 0 then raise ZeroDivisionError
     else ret (Qtrunc (py_max metric_width metric_height) / polar_step_size_meters)) in
  for_each (range_from 1 rings) (fun i =>
    cv2 raster (Circle center_pixel
                  (Qtrunc (inject_Z (i * polar_step_size_meters) * pixels_per_meter))
                  (50, 50, 50) 1)) >>
  ret {| _metric_width := metric_width;
         _metric_height := metric_height;
         _pixels_per_meter := pixels_per_meter;
         _xaxis := xaxis;
         _yaxis := yaxis;
         _center_pixel := center_pixel;
         data := raster |}.

(** [np.vstack([pts[:, xaxis], pts[:, yaxis]]).T] followed by the
    metric-to-pixel transform. *)
Definition bev_project (self : BEVImage) (pts : list point3) : result (list (Q * Q)) :=
  let? xs := np_column pts (_xaxis self) in
  let? ys := np_column pts (_yaxis self) in
  Ok (map (bev_pixel self) (zip xs ys)).

(** The pixels the BEV point-cloud renderer keeps on a raster of [H] rows
    and [W] columns: the cast to integers and the [in_view] mask. *)
Definition bev_retained (point_cloud2d : list (Q * Q)) (H W : Z) : list (Z * Z) :=
  let uv := map trunc2 point_cloud2d in
  let in_view := map (in_view_bev H W) point_cloud2d in
  mask_select in_view uv.

(** [BEVImage.render_point_cloud(point_cloud)] *)
Definition render_point_cloud (self : BEVImage) (point_cloud : list point3) : M unit :=
  let! point_cloud2d := lift (bev_project self point_cloud) in
  let! im := load (data self) in
  let '(H, W) := shape im in
  let uv := bev_retained point_cloud2d H W in
  modify_res (data self)
    (fun raster => np_scatter raster (map (fun p => (p, (128, 128, 128))) uv)).

(** The mean of the projected corners, [np.mean(corners2d, axis=0)]. *)
Definition mean2 (pts : list (Q * Q)) : Q * Q :=
  let n := inject_Z (Z.of_nat (length pts)) in
  (fold_right Qplus 0 (map fst pts) / n, fold_right Qplus 0 (map snd pts) / n)%Q.

(** The body of the box loop of [render_bounding_box_3d]. *)
Definition render_one_box_3d (self : BEVImage) (colors : list color)
    (texts : option (list string)) (bidx : nat) (bbox : BoundingBox3D) : M unit :=
  let! corners2d := lift (bev_project self (vec_to_list (corners bbox))) in
  let center := trunc2 (mean2 corners2d) in
  let corners2d := map trunc2 corners2d in
  cv2 (data self) (Circle center 1 COLOR_GREEN 1) >>
  let! c0 := py_get corners2d 0 in
  let! c1 := py_get corners2d 1 in
  cv2 (data self) (Line center ((fst c0 + fst c1) / 2, (snd c0 + snd c1) / 2)
                        COLOR_WHITE 2) >>
  let! col0 := py_get colors 0 in
  cv2 (data self) (Line c0 c1 col0 2) >>
  let! c3 := py_get corners2d 3 in
  let! c4 := py_get corners2d 4 in
  let! col3 := py_get colors 3 in
  cv2 (data self) (Line c3 c4 col3 2) >>
  let! c5 := py_get corners2d 5 in
  cv2 (data self) (Line c1 c5 col3 2) >>
  let! col2 := py_get colors 2 in
  cv2 (data self) (Line c4 c5 col2 2) >>
  if truthy texts then
    let! t := py_get (default [] texts) bidx in
    cv2 (data self) (PutText t c0 (1 # 2) COLOR_WHITE 2 LINE_AA)
  else ret tt.

(** [BEVImage.render_bounding_box_3d(bboxes3d, color, texts)] *)
Definition render_bounding_box_3d (self : BEVImage) (bboxes3d : list BoundingBox3D)
    (color : option color) (texts : option (list string)) : M unit :=
  let colors :=
    match color with
    | None => [COLOR_RED; COLOR_GREEN; COLOR_BLUE; COLOR_GRAY]
    | Some c => replicate 4 c
    end in
  for_enum bboxes3d (render_one_box_3d self colors texts).

End Visualization.

(** ** A small instance of the collaborators, to run the model

    The shape rasterisers mark the defining points of a shape only; text
    marks its origin; [resize] samples the nearest source pixel; [dilate]
    takes the per-channel maximum over the window around each pixel. *)

Definition sample_resize (img : image) (w h : nat) : image :=
  Image w
    (map (fun r =>
            map (fun c =>
                   default black
                     (px_at img (Z.of_nat (c * im_width img / w))
                                (Z.of_nat (r * im_height img / h))))
                (seq 0 w))
         (seq 0 h)).

Definition sample_dilate (img : image) (kh kw : nat) : image :=
  let window :=
    list_prod (range_from (- Z.of_nat (kw / 2)) (Z.of_nat kw - Z.of_nat (kw / 2)))
              (range_from (- Z.of_nat (kh / 2)) (Z.of_nat kh - Z.of_nat (kh / 2))) in
  Image (im_width img)
    (imap (fun v row =>
             imap (fun u p =>
                     fold_left
                       (fun acc d =>
                          match px_at img (Z.of_nat u + fst d) (Z.of_nat v + snd d) with
                          | Some q => px_max acc q
                          | None => acc
                          end)
                       window p)
                  row)
          (im_rows img)).

Definition sample_cv2 : Cv2.
Proof.
  refine {|
    rect_px := fun p1 p2 _ => [p1; p2];
    poly_px := fun poly _ _ => poly;
    line_px := fun p1 p2 _ => [p1; p2];
    circle_px := fun ctr r _ =>
      [(fst ctr + r, snd ctr); (fst ctr - r, snd ctr);
       (fst ctr, snd ctr + r); (fst ctr, snd ctr - r)];
    put_text := fun img _ org _ c _ _ => set_px img org c;
    resize := sample_resize;
    dilate := sample_dilate
  |}.
  - reflexivity.
  - intros img w h. unfold im_height, sample_resize. simpl.
    rewrite length_map, length_seq. reflexivity.
  - intros img w h. unfold well_formed, sample_resize. simpl.
    apply Forall_forall. intros r Hr.
    apply list_elem_of_In, in_map_iff in Hr. destruct Hr as [k [<- _]].
    rewrite length_map, length_seq. reflexivity.
Defined.

(** Ascending insertion sort on rationals, for the sample percentile. *)
Fixpoint insert_sorted (x : Q) (l : list Q) : list Q :=
  match l with
  | [] => [x]
  | y :: rest => if Qleb x y then x :: l else y :: insert_sorted x rest
  end.

Definition sort_Q (l : list Q) : list Q := fold_right insert_sorted [] l.

(** Percentile with linear interpolation between the two nearest ranks. *)
Definition sample_percentile (l : list Q) (p : Q) : Q :=
  let s := sort_Q l in
  let rank := (p / 100 * inject_Z (Z.of_nat (length s) - 1))%Q in
  let lo := Qtrunc rank in
  let a := default 0%Q (s !! Z.to_nat lo) in
  let b := default a (s !! Z.to_nat (lo + 1)) in
  (a + (rank - inject_Z lo) * (b - a))%Q.

(** A piecewise-linear rendering of the "jet" colormap. *)
Definition sample_jet (x : Q) : Q * Q * Q :=
  let bump := fun m => np_clip ((3 # 2) - Qabs (4 * x - m)) 0 1 in
  (bump 3, bump 2, bump 1)%Q.

Definition sample_numlib : NumLib :=
  {| np_percentile := sample_percentile; jet := sample_jet |}.

(** The identity camera with unit focal length: [(x, y, z)] projects to
    [(x / z, y / z)]. *)
Definition pinhole : Camera :=
  {| p_cw := fun p => p;
     K_project := fun p => let '(x, y, z) := p in (x / z, y / z)%Q |}.

(** ** Summaries of the loops, used to state what a call leaves behind *)

(** The top-left corner of a 2D box, [box[0]]. *)
Definition top_left (b : bbox2d) : Z * Z :=
  let '(x, y, _, _) := b in (Qtrunc x, Qtrunc y).

Section Summaries.
Context `{cv : Cv2}.

(** Box [i] outlined as a closed 2px polyline in color [i], in list order. *)
Definition outline_boxes (img : image) (bboxes2d : list bbox2d)
    (colors : list color) : image :=
  fold_left (fun im bc => cv2_polylines im [box_polygon (fst bc)] true (snd bc) 2)
            (zip bboxes2d colors) img.

(** Label [i] written in white at the top-left corner of box [i]. *)
Definition label_boxes (img : image) (bboxes2d : list bbox2d)
    (texts : list string) : image :=
  fold_left (fun im bt => put_text im (snd bt) (top_left (fst bt)) 1
                                   COLOR_WHITE 2 LINE_AA)
            (zip bboxes2d texts) img.

End Summaries.

(** A sequence of clipped pixel writes, applied in order. *)
Definition apply_writes (img : image) (ws : list (Z * Z * color)) : image :=
  fold_left (fun im w => set_px im (fst w) (snd w)) ws img.

(** The pixel writes behind the color loop of the 2D box renderer. *)
Definition box_writes `{cv : Cv2} (bboxes2d : list bbox2d) (colors : list color)
    : list (Z * Z * color) :=
  flat_map (fun bc => map (fun p => (p, snd bc))
                          (poly_px (box_polygon (fst bc)) true 2))
           (zip bboxes2d colors).

(** ** Ownership of rasters *)

(** [m] writes to no raster but the one behind [l], and allocates none:
    whatever it returns or raises, the heap it leaves differs from the one
    it found at most in the content of [l]. *)
Definition mutates_only {A} (l : loc) (m : M A) : Prop :=
  forall (h : heap) im, h !! l = Some im ->
    exists im', snd (m h) = <[l := im']> h.

(** [m] hands back the very handle [l] it was given, without allocating. *)
Definition in_place (l : loc) (m : M loc) (h : heap) : Prop :=
  fst (m h) = Ok l /\ length (snd (m h)) = length h.

(** ** Concrete inputs *)

(** A 3 x 3 canvas of one metre at three pixels per metre, as the
    constructor builds it on an empty heap. *)
Definition small_canvas : BEVImage :=
  {| _metric_width := 1;
     _metric_height := 1;
     _pixels_per_meter := 3;
     _xaxis := 0;
     _yaxis := 1;
     _center_pixel := (1, 1);
     data := 0%nat |}.

(** A unit cube centred at the origin. *)
Definition unit_box : BoundingBox3D :=
  {| corners :=
       [# (1 # 2, 1 # 2, 1 # 2); (1 # 2, - (1 # 2), 1 # 2);
          (- (1 # 2), - (1 # 2), 1 # 2); (- (1 # 2), 1 # 2, 1 # 2);
          (1 # 2, 1 # 2, - (1 # 2)); (1 # 2, - (1 # 2), - (1 # 2));
          (- (1 # 2), - (1 # 2), - (1 # 2)); (- (1 # 2), 1 # 2, - (1 # 2)) ]%Q |}.

(** ** Shapes and pixel order *)

(** [m] leaves the raster behind [l] with the shape it had (and well formed
    if it was), touches no other raster and allocates none, whether it
    returns or raises. *)
Definition keeps_shape {A} (l : loc) (m : M A) : Prop :=
  forall (h : heap) im, h !! l = Some im ->
    exists im', snd (m h) = <[l := im']> h
                /\ im_height im' = im_height im
                /\ im_width im' = im_width im
                /\ (well_formed im -> well_formed im').

(** Channel-wise order on pixels. *)
Definition px_le (p q : pixel) : Prop :=
  let '(r1, g1, b1) := p in
  let '(r2, g2, b2) := q in
  r1 <= r2 /\ g1 <= g2 /\ b1 <= b2.

(** A drawing call other than text. *)
Definition is_shape_cmd (cmd : draw_cmd) : bool :=
  match cmd with PutText _ _ _ _ _ _ => false | _ => true end.

(** ** Stacks of rasters *)

(** The array [np.hstack] returns on a non-empty list of rasters of one
    height, and the empty raster otherwise. *)
Definition hcat (tiles : list image) : image :=
  match tiles with
  | [] => Image 0 []
  | t :: rest => fold_left hstack2 rest t
  end.

(** The array [np.vstack] returns on a non-empty list of rasters of one
    width, and the empty raster otherwise. *)
Definition vcat (strips : list image) : image :=
  match strips with
  | [] => Image 0 []
  | t :: rest => fold_left vstack2 rest t
  end.

(** * Properties *)

(** ** The Python and numpy conventions of the model, on small inputs *)

Example int_truncates_toward_zero :
  Qtrunc (7 # 2) = 3 /\ Qtrunc (- (7 # 2)) = -3.
Proof. split; reflexivity. Qed.

Example ceil_div_rounds_up :
  ceil_div 7 2 = 4 /\ ceil_div 8 2 = 4 /\ ceil_div 3 (-2) = -1.
Proof. repeat split; reflexivity. Qed.

Example np_index_counts_from_the_end :
  np_index 3 (-1) = Some 2%nat /\ np_index 3 3 = None /\ np_index 3 (-4) = None.
Proof. repeat split; reflexivity. Qed.

Example range_step_backwards_is_empty :
  range_step 0 2 (-2) = Ok [] /\ range_step 0 5 2 = Ok [0; 2; 4].
Proof. split; reflexivity. Qed.

Example truthy_of_empty_list :
  truthy (Some ([] : list string)) = false /\ truthy (Some ["a"]) = true.
Proof. split; reflexivity. Qed.

Example mask_select_keeps_marked :
  mask_select [true; false; true] [10; 20; 30] = [10; 30].
Proof. reflexivity. Qed.

Example mosaic_negative_grid_width :
  mosaic (cv := sample_cv2) [zeros 1 1] 1 0 (Some (-1)) = Raise IndexError.
Proof. vm_compute. reflexivity. Qed.

Example mosaic_three_tiles_on_two_columns :
  (fun r => match r with Ok out => Some (shape out) | Raise _ => None end)
    (mosaic (cv := sample_cv2) [zeros 3 4; zeros 3 4; zeros 3 4] (1 # 2) 1 (Some 2))
  = Some (6, 8).
Proof. vm_compute. reflexivity. Qed.

Example BEVImage_init_zero_step :
  fst (BEVImage_init (cv := sample_cv2) 1 1 3 0 0 1 []) = Raise ZeroDivisionError.
Proof. vm_compute. reflexivity. Qed.

Example mosaic_one_image_on_two_columns :
  mosaic (cv := sample_cv2) [zeros 1 1] 1 0 (Some 2) = Ok (zeros 1 2).
Proof. vm_compute. reflexivity. Qed.

Example mosaic_empty_target :
  mosaic (cv := sample_cv2) [zeros 1 1] 0 0 None = Raise CvError
  /\ mosaic (cv := sample_cv2) [zeros 1 1] 1 (-1) None = Raise CvError.
Proof. split; vm_compute; reflexivity. Qed.

Example BEVImage_init_negative_extent :
  fst (BEVImage_init (cv := sample_cv2) (- (1)) 1 3 10 0 1 []) = Raise ValueError.
Proof. vm_compute. reflexivity. Qed.

(** ** Numbers *)

Lemma Qleb_le x y : Qleb x y = true <-> (x <= y)%Q.
Proof. unfold Qleb. apply Qle_bool_iff. Qed.

Lemma Qltb_lt x y : Qltb x y = true <-> (x < y)%Q.
Proof.
  unfold Qltb. rewrite negb_true_iff. split.
  - intros H. apply Qnot_le_lt. intros Hle.
    apply Qle_bool_iff in Hle. congruence.
  - intros H. destruct (Qle_bool y x) eqn:E; [|reflexivity].
    apply Qle_bool_iff in E. exfalso. exact (Qlt_not_le _ _ H E).
Qed.

Lemma Qtrunc_nonneg q : (0 <= q)%Q -> 0 <= Qtrunc q.
Proof.
  unfold Qle, Qtrunc. simpl. intros H.
  apply Z.quot_pos; lia.
Qed.

Lemma Qtrunc_lt_upper q n : (0 <= q)%Q -> (q < inject_Z n)%Q -> Qtrunc q < n.
Proof.
  unfold Qle, Qlt, Qtrunc. simpl. intros H0 H.
  apply Z.quot_lt_upper_bound; lia.
Qed.

Lemma Qtrunc_in_range q n :
  (0 <= q)%Q -> (q < inject_Z n)%Q -> 0 <= Qtrunc q < n.
Proof. intros. split; [apply Qtrunc_nonneg | apply Qtrunc_lt_upper]; assumption. Qed.

Lemma np_index_direct n i : 0 <= i < Z.of_nat n -> np_index n i = Some (Z.to_nat i).
Proof.
  intros H. unfold np_index.
  destruct (0 <=? i) eqn:E1; [|lia]. destruct (i <? Z.of_nat n) eqn:E2; [|lia].
  reflexivity.
Qed.

(** ** The heap monad *)

Lemma load_Some (h : heap) l img : h !! l = Some img -> load l h = (Ok img, h).
Proof. intros H. unfold load. rewrite H. reflexivity. Qed.

Lemma modify_Some (h : heap) l img f :
  h !! l = Some img -> modify l f h = (Ok tt, <[l := f img]> h).
Proof. intros H. unfold modify, bind, store. rewrite (load_Some _ _ _ H). reflexivity. Qed.

Lemma heap_insert_lookup (h : heap) l img img' :
  h !! l = Some img -> <[l := img']> h !! l = Some img'.
Proof. intros H. apply list_lookup_insert_eq. eapply lookup_lt_Some, H. Qed.

Lemma heap_insert_id (h : heap) l img : h !! l = Some img -> <[l := img]> h = h.
Proof. apply list_insert_id. Qed.

Lemma bind_Ok {A B} (m : M A) (k : A -> M B) (h h' : heap) a :
  m h = (Ok a, h') -> bind m k h = k a h'.
Proof. intros H. unfold bind. rewrite H. reflexivity. Qed.

Lemma bind_Raise {A B} (m : M A) (k : A -> M B) (h h' : heap) e :
  m h = (Raise e, h') -> bind m k h = (Raise e, h').
Proof. intros H. unfold bind. rewrite H. reflexivity. Qed.

Lemma assert_true msg (h : heap) : assert true msg h = (Ok tt, h).
Proof. reflexivity. Qed.

Lemma assert_false msg (h : heap) : assert false msg h = (Raise (AssertionError msg), h).
Proof. reflexivity. Qed.

Lemma for_enum_from_ext {A} (xs : list A) (b1 b2 : nat -> A -> M unit) :
  (forall idx x h, x ∈ xs -> b1 idx x h = b2 idx x h) ->
  forall k h, for_enum_from k xs b1 h = for_enum_from k xs b2 h.
Proof.
  induction xs as [|x xs IH]; intros Hb k h; [reflexivity|].
  simpl. unfold bind. rewrite Hb by left.
  destruct (b2 k x h) as [[[]|e] h']; [|reflexivity].
  apply IH. intros idx y h0 Hy. apply Hb. right. exact Hy.
Qed.

(** A loop that fetches the [idx]-th element of a second list and updates
    one raster with it is a fold over the zipped lists. *)
Lemma for_enum_from_zip {A B} (xs : list A) (ys : list B) l
    (g : A -> B -> image -> image) :
  forall k img (h : heap),
    h !! l = Some img ->
    (length xs <= length (drop k ys))%nat ->
    for_enum_from k xs (fun idx x => let! y := py_get ys idx in modify l (g x y)) h
    = (Ok tt, <[l := fold_left (fun im xy => g (fst xy) (snd xy) im)
                               (zip xs (drop k ys)) img]> h).
Proof.
  induction xs as [|x xs IH]; intros k img h Hl Hlen.
  - simpl. rewrite (heap_insert_id _ _ _ Hl). reflexivity.
  - destruct (drop k ys) as [|y rest] eqn:Hd; [simpl in Hlen; lia|].
    assert (Hk : ys !! k = Some y).
    { rewrite <- (Nat.add_0_r k), <- lookup_drop, Hd. reflexivity. }
    assert (Hrest : drop (S k) ys = rest).
    { pose proof (drop_S _ _ _ Hk) as HS. rewrite Hd in HS. congruence. }
    simpl. unfold bind at 1. unfold bind at 1. unfold py_get. rewrite Hk. simpl.
    rewrite (modify_Some _ _ _ _ Hl).
    rewrite (IH (S k) (g x y img)).
    + rewrite list_insert_insert_eq, Hrest. reflexivity.
    + eapply heap_insert_lookup, Hl.
    + rewrite Hrest. simpl in Hlen. lia.
Qed.

Section Bbox2dFacts.
Context `{cv : Cv2}.

Lemma for_enum_from_map {A B} (f : A -> B) (xs : list A) (body : nat -> B -> M unit) :
  forall k h,
    for_enum_from k (map f xs) body h
    = for_enum_from k xs (fun idx x => body idx (f x)) h.
Proof.
  induction xs as [|x xs IH]; intros k h; [reflexivity|].
  simpl. unfold bind. destruct (body k (f x) h) as [[[]|e] h']; [apply IH | reflexivity].
Qed.

Lemma color_loop_zip img (bboxes2d : list bbox2d) (colors : list color) im (h : heap) :
  h !! img = Some im ->
  length colors = length bboxes2d ->
  for_enum (map box_polygon bboxes2d)
    (fun idx box => let! c := py_get colors idx in
                    cv2 img (Polylines [box] true c 2)) h
  = (Ok tt, <[img := outline_boxes im bboxes2d colors]> h).
Proof.
  intros Him Hlen. unfold for_enum. rewrite for_enum_from_map.
  unfold cv2.
  rewrite (for_enum_from_zip bboxes2d colors img
             (fun b c => cv2_draw (Polylines [box_polygon b] true c 2)) 0 im h Him).
  - reflexivity.
  - rewrite drop_0. lia.
Qed.

Lemma text_loop_zip img (bboxes2d : list bbox2d) (texts : list string) im (h : heap) :
  h !! img = Some im ->
  length texts = length bboxes2d ->
  for_enum (map box_polygon bboxes2d)
    (fun idx box => let! t := py_get texts idx in
                    let! org := py_get box 0 in
                    cv2 img (PutText t org 1 COLOR_WHITE 2 LINE_AA)) h
  = (Ok tt, <[img := label_boxes im bboxes2d texts]> h).
Proof.
  intros Him Hlen. unfold for_enum. rewrite for_enum_from_map.
  rewrite (for_enum_from_ext bboxes2d _
             (fun idx b => let! t := py_get texts idx in
                           modify img (fun im0 => put_text im0 t (top_left b) 1
                                                           COLOR_WHITE 2 LINE_AA))).
  - rewrite (for_enum_from_zip bboxes2d texts img
               (fun b t im0 => put_text im0 t (top_left b) 1 COLOR_WHITE 2 LINE_AA)
               0 im h Him).
    + reflexivity.
    + rewrite drop_0. lia.
  - intros idx [[[x y] w] hh] h0 _. unfold bind, py_get.
    destruct (texts !! idx); reflexivity.
Qed.

(** Closed form of a call with per-box colors and no labels. *)
Lemma render_bbox2d_colors img bboxes2d colors texts im (h : heap) :
  h !! img = Some im ->
  length colors = length bboxes2d ->
  truthy texts = false ->
  render_bbox2d_on_image img bboxes2d (Some colors) texts h
  = (Ok img, <[img := outline_boxes im bboxes2d colors]> h).
Proof.
  intros Him Hlen Ht. unfold render_bbox2d_on_image. rewrite Ht.
  unfold bind at 1. unfold bind at 1.
  rewrite length_map, Hlen, Nat.eqb_refl. simpl.
  rewrite (color_loop_zip _ _ _ _ _ Him Hlen). reflexivity.
Qed.

(** Closed form of a call with per-box colors and per-box labels. *)
Lemma render_bbox2d_colors_texts img bboxes2d colors texts im (h : heap) :
  h !! img = Some im ->
  length colors = length bboxes2d ->
  length texts = length bboxes2d ->
  render_bbox2d_on_image img bboxes2d (Some colors) (Some texts) h
  = (Ok img,
     <[img := label_boxes (outline_boxes im bboxes2d colors) bboxes2d texts]> h).
Proof.
  intros Him Hlen Hlt.
  destruct texts as [|t texts].
  - rewrite (render_bbox2d_colors _ _ _ _ _ _ Him Hlen) by reflexivity.
    destruct bboxes2d; [reflexivity | discriminate].
  - assert (E1 : (length (map box_polygon bboxes2d) =? length colors)%nat = true)
      by (apply Nat.eqb_eq; rewrite length_map; congruence).
    assert (E2 : (length (map box_polygon bboxes2d) =? length (t :: texts))%nat = true)
      by (apply Nat.eqb_eq; rewrite length_map; congruence).
    unfold render_bbox2d_on_image.
    change (truthy (Some (t :: texts))) with true. cbv iota.
    change (default [] (Some (t :: texts))) with (t :: texts).
    rewrite E1, E2. unfold assert.
    unfold bind at 1. unfold bind at 1. unfold ret at 1.
    rewrite (color_loop_zip _ _ _ _ _ Him Hlen).
    unfold bind at 1. unfold bind at 1. unfold ret at 1.
    rewrite (text_loop_zip img bboxes2d (t :: texts) _ _ (heap_insert_lookup _ _ _ _ Him) Hlt).
    rewrite list_insert_insert_eq. reflexivity.
Qed.

End Bbox2dFacts.

Section Bbox2dClaims.
Context `{cv : Cv2}.

Lemma render_bbox2d_red img bboxes2d texts im (h : heap) :
  h !! img = Some im ->
  truthy texts = false ->
  render_bbox2d_on_image img bboxes2d None texts h
  = (Ok img, <[img := cv2_polylines im (map box_polygon bboxes2d) true COLOR_RED 2]> h).
Proof.
  intros Him Ht. unfold render_bbox2d_on_image. rewrite Ht.
  unfold bind at 1. unfold bind at 1. unfold cv2.
  rewrite (modify_Some _ _ _ _ Him). reflexivity.
Qed.

Lemma render_bbox2d_colors_mismatch img bboxes2d colors texts (h : heap) :
  length colors <> length bboxes2d ->
  render_bbox2d_on_image img bboxes2d (Some colors) texts h
  = (Raise (AssertionError "len(boxes) != len(colors)"), h).
Proof.
  intros Hne. unfold render_bbox2d_on_image.
  assert (E : (length (map box_polygon bboxes2d) =? length colors)%nat = false)
    by (apply Nat.eqb_neq; rewrite length_map; congruence).
  rewrite E. reflexivity.
Qed.

Lemma render_bbox2d_texts_mismatch img bboxes2d colors texts im (h : heap) :
  h !! img = Some im ->
  match colors with Some cs => length cs = length bboxes2d | None => True end ->
  texts <> [] ->
  length texts <> length bboxes2d ->
  fst (render_bbox2d_on_image img bboxes2d colors (Some texts) h)
  = Raise (AssertionError "len(boxes) != len(texts)").
Proof.
  intros Him Hc Hne Hlen.
  assert (E : (length (map box_polygon bboxes2d) =? length texts)%nat = false)
    by (apply Nat.eqb_neq; rewrite length_map; congruence).
  destruct texts as [|t texts]; [congruence|].
  unfold render_bbox2d_on_image.
  change (truthy (Some (t :: texts))) with true. cbv iota.
  change (default [] (Some (t :: texts))) with (t :: texts).
  rewrite E.
  assert (Hphase : exists h1 : list image,
    match colors with
    | Some colors0 =>
        assert (length (map box_polygon bboxes2d) =? length colors0)%nat
               "len(boxes) != len(colors)" >>
        for_enum (map box_polygon bboxes2d)
          (fun idx box => let! c := py_get colors0 idx in
                          cv2 img (Polylines [box] true c 2))
    | None => cv2 img (Polylines (map box_polygon bboxes2d) true COLOR_RED 2)
    end h = (Ok tt, h1)).
  { destruct colors as [cs|].
    - assert (E1 : (length (map box_polygon bboxes2d) =? length cs)%nat = true)
        by (apply Nat.eqb_eq; rewrite length_map; congruence).
      rewrite E1. eexists.
      erewrite bind_Ok by apply assert_true.
      apply (color_loop_zip _ _ _ _ _ Him Hc).
    - eexists. apply (modify_Some _ _ _ _ Him). }
  destruct Hphase as [h1 Hphase].
  erewrite bind_Ok by exact Hphase.
  erewrite bind_Raise; [reflexivity|].
  erewrite bind_Raise; [reflexivity|]. apply assert_false.
Qed.

End Bbox2dClaims.



(** ** Pixel writes *)

Lemma set_px_width img p c : im_width (set_px img p c) = im_width img.
Proof.
  destruct p as [u v]. unfold set_px.
  destruct ((0 <=? u) && (0 <=? v)); reflexivity.
Qed.

Lemma set_px_height img p c : im_height (set_px img p c) = im_height img.
Proof.
  destruct p as [u v]. unfold set_px, im_height.
  destruct ((0 <=? u) && (0 <=? v)); [|reflexivity].
  simpl. apply length_alter.
Qed.

(** Writing a pixel twice keeps the second color. *)
Lemma set_px_overwrite img p c d : set_px (set_px img p c) p d = set_px img p d.
Proof.
  destruct p as [u v]. unfold set_px.
  destruct ((0 <=? u) && (0 <=? v)) eqn:E; [|reflexivity].
  simpl. f_equal. rewrite list_alter_alter_eq.
  apply list_alter_ext; [|reflexivity].
  intros r _. simpl. apply list_insert_insert_eq.
Qed.

(** Writes to different pixels commute. *)
Lemma set_px_commute img p q c d :
  p <> q -> set_px (set_px img p c) q d = set_px (set_px img q d) p c.
Proof.
  destruct p as [u v], q as [u' v']. intros Hne. unfold set_px.
  destruct ((0 <=? u) && (0 <=? v)) eqn:E, ((0 <=? u') && (0 <=? v')) eqn:E';
    simpl; rewrite ?E, ?E'; try reflexivity.
  f_equal.
  apply andb_true_iff in E as [Hu Hv]. apply andb_true_iff in E' as [Hu' Hv'].
  apply Z.leb_le in Hu, Hv, Hu', Hv'.
  destruct (decide (Z.to_nat v = Z.to_nat v')) as [Hv_eq|Hv_ne].
  - rewrite Hv_eq. rewrite !list_alter_alter_eq.
    apply list_alter_ext; [|reflexivity].
    intros r _. simpl. apply list_insert_insert_ne.
    intros Hu_eq. apply Hne. f_equal; lia.
  - symmetry. apply list_alter_alter_ne. exact Hv_ne.
Qed.

Lemma px_at_set_px img p c u v :
  px_at (set_px img p c) u v
  = if decide (p = (u, v))
    then match px_at img u v with Some _ => Some c | None => None end
    else px_at img u v.
Proof.
  destruct p as [u0 v0]. unfold set_px, px_at.
  destruct ((0 <=? u0) && (0 <=? v0)) eqn:E0.
  - apply andb_true_iff in E0 as [Hu0 Hv0]. apply Z.leb_le in Hu0, Hv0.
    destruct ((0 <=? u) && (0 <=? v)) eqn:E.
    + apply andb_true_iff in E as [Hu Hv]. apply Z.leb_le in Hu, Hv.
      simpl. destruct (decide ((u0, v0) = (u, v))) as [Heq|Hne].
      * injection Heq as -> ->. rewrite list_lookup_alter_eq.
        destruct (im_rows img !! Z.to_nat v) as [r|]; simpl; [|reflexivity].
        destruct (r !! Z.to_nat u) eqn:Er.
        -- apply list_lookup_insert_eq. eapply lookup_lt_Some, Er.
        -- apply lookup_ge_None. rewrite length_insert.
           apply lookup_ge_None in Er. exact Er.
      * destruct (decide (Z.to_nat v0 = Z.to_nat v)) as [Hv_eq|Hv_ne].
        -- rewrite Hv_eq, list_lookup_alter_eq.
           destruct (im_rows img !! Z.to_nat v) as [r|]; simpl; [|reflexivity].
           apply list_lookup_insert_ne. intros Hu_eq. apply Hne. f_equal; lia.
        -- rewrite list_lookup_alter_ne by exact Hv_ne. reflexivity.
    + destruct (decide ((u0, v0) = (u, v))); reflexivity.
  - destruct (decide ((u0, v0) = (u, v))) as [Heq|Hne]; [|reflexivity].
    injection Heq as -> ->. rewrite E0. reflexivity.
Qed.

Lemma px_at_paint_cases img pts c u v :
  px_at (paint img pts c) u v = px_at img u v
  \/ (is_Some (px_at img u v) /\ px_at (paint img pts c) u v = Some c).
Proof.
  revert img. induction pts as [|p pts IH]; intros img; [left; reflexivity|].
  unfold paint in *. simpl.
  pose proof (px_at_set_px img p c u v) as Hp.
  destruct (IH (set_px img p c)) as [H|[Hs H]]; rewrite H.
  - rewrite Hp. destruct (decide (p = (u, v))); [|left; reflexivity].
    destruct (px_at img u v); [right; split; [eexists|]; reflexivity | left; reflexivity].
  - right. split; [|reflexivity].
    rewrite Hp in Hs. destruct (decide (p = (u, v))); [|exact Hs].
    destruct (px_at img u v); [eexists; reflexivity | destruct Hs; discriminate].
Qed.

(** A pixel of the footprint that lies on the raster takes the color. *)
Lemma px_at_paint_in img pts c u v :
  (u, v) ∈ pts -> is_Some (px_at img u v) ->
  px_at (paint img pts c) u v = Some c.
Proof.
  revert img. induction pts as [|p pts IH]; intros img Hin Hs.
  - inversion Hin.
  - change (paint img (p :: pts) c) with (paint (set_px img p c) pts c).
    pose proof (px_at_set_px img p c u v) as Hp.
    destruct (decide (p = (u, v))) as [->|Hne].
    + destruct Hs as [x Hx]. rewrite Hx in Hp.
      destruct (px_at_paint_cases (set_px img (u, v) c) pts c u v) as [H|[_ H]];
        rewrite H; [exact Hp | reflexivity].
    + apply IH.
      * apply elem_of_cons in Hin as [Heq|Hin]; [congruence | exact Hin].
      * rewrite Hp. exact Hs.
Qed.

(** A sequence of pixel writes. *)
Lemma apply_writes_app img ws1 ws2 :
  apply_writes img (ws1 ++ ws2) = apply_writes (apply_writes img ws1) ws2.
Proof. unfold apply_writes. apply fold_left_app. Qed.

Lemma paint_apply_writes img pts c :
  paint img pts c = apply_writes img (map (fun p => (p, c)) pts).
Proof.
  revert img. induction pts as [|p pts IH]; intros img; [reflexivity|].
  unfold paint, apply_writes in *. simpl. apply IH.
Qed.

(** A write is dead when a later write goes to the same pixel. *)
Lemma dead_write img p c ws :
  p ∈ map fst ws -> apply_writes (set_px img p c) ws = apply_writes img ws.
Proof.
  revert img. induction ws as [|[q d] ws IH]; intros img Hin.
  - inversion Hin.
  - unfold apply_writes in *. simpl in *.
    destruct (decide (p = q)) as [->|Hne].
    + rewrite set_px_overwrite. reflexivity.
    + rewrite (set_px_commute _ _ _ _ _ Hne). apply IH.
      apply elem_of_cons in Hin as [Heq|Hin]; [congruence | exact Hin].
Qed.

(** Writes all of whose pixels are written again later are dead. *)
Lemma dead_writes img ws1 ws2 :
  (forall p, p ∈ map fst ws1 -> p ∈ map fst ws2) ->
  apply_writes img (ws1 ++ ws2) = apply_writes img ws2.
Proof.
  revert img. induction ws1 as [|[p c] ws1 IH]; intros img Hsub; [reflexivity|].
  change (apply_writes img (((p, c) :: ws1) ++ ws2))
    with (apply_writes (set_px img p c) (ws1 ++ ws2)).
  rewrite dead_write.
  - apply IH. intros q Hq. apply Hsub. simpl. right. exact Hq.
  - rewrite map_app. apply elem_of_app. right. apply Hsub. simpl. left.
Qed.

Section RedrawFacts.
Context `{cv : Cv2}.

Lemma px_at_apply_writes_is_Some img ws u v :
  is_Some (px_at img u v) -> is_Some (px_at (apply_writes img ws) u v).
Proof.
  revert img. induction ws as [|[p c] ws IH]; intros img Hs; [exact Hs|].
  unfold apply_writes in *. simpl. apply IH.
  rewrite px_at_set_px. destruct (decide (p = (u, v))); [|exact Hs].
  destruct Hs as [x ->]. eexists; reflexivity.
Qed.

Lemma outline_boxes_writes img bboxes2d colors :
  outline_boxes img bboxes2d colors = apply_writes img (box_writes bboxes2d colors).
Proof.
  unfold outline_boxes, box_writes.
  generalize (zip bboxes2d colors) as l. intros l. revert img.
  induction l as [|[b c] l IH]; intros img; [reflexivity|].
  simpl. rewrite IH, apply_writes_app. f_equal.
  unfold cv2_polylines. simpl. apply paint_apply_writes.
Qed.

Lemma box_writes_footprint bboxes2d colors colors' :
  length colors = length bboxes2d ->
  length colors' = length bboxes2d ->
  map fst (box_writes bboxes2d colors) = map fst (box_writes bboxes2d colors').
Proof.
  revert colors colors'.
  induction bboxes2d as [|b bs IH]; intros [|c cs] [|c' cs'] H H'; try discriminate;
    [reflexivity|].
  unfold box_writes in *. simpl. rewrite !map_app, !map_map. simpl.
  f_equal. apply IH; simpl in *; lia.
Qed.

(** Redrawing the same boxes: only the colors of the second pass remain. *)
Lemma outline_boxes_last_wins img bboxes2d colors colors' :
  length colors = length bboxes2d ->
  length colors' = length bboxes2d ->
  outline_boxes (outline_boxes img bboxes2d colors) bboxes2d colors'
  = outline_boxes img bboxes2d colors'.
Proof.
  intros H H'. rewrite !outline_boxes_writes, <- apply_writes_app.
  apply dead_writes. intros p Hp.
  rewrite <- (box_writes_footprint bboxes2d colors colors' H H'). exact Hp.
Qed.

Lemma outline_boxes_snoc img bs b cs c :
  length cs = length bs ->
  outline_boxes img (bs ++ [b]) (cs ++ [c])
  = paint (outline_boxes img bs cs) (poly_px (box_polygon b) true 2) c.
Proof.
  intros Hlen. unfold outline_boxes.
  rewrite zip_with_app by (symmetry; exact Hlen).
  rewrite fold_left_app. reflexivity.
Qed.

Lemma outline_boxes_last_pixel img bs b cs c u v :
  length cs = length bs ->
  (u, v) ∈ poly_px (box_polygon b) true 2 ->
  is_Some (px_at img u v) ->
  px_at (outline_boxes img (bs ++ [b]) (cs ++ [c])) u v = Some c.
Proof.
  intros Hlen Hin Hs. rewrite outline_boxes_snoc by exact Hlen.
  apply px_at_paint_in; [exact Hin|].
  rewrite outline_boxes_writes. apply px_at_apply_writes_is_Some, Hs.
Qed.

End RedrawFacts.


(** ** Masks and filters *)

Lemma mask_select_map {A B} (f : A -> bool) (g : A -> B) (xs : list A) :
  mask_select (map f xs) (map g xs) = map g (filter (fun x => f x = true) xs).
Proof.
  unfold mask_select. induction xs as [|x xs IH]; [reflexivity|].
  simpl. rewrite !filter_cons. simpl.
  destruct (decide (f x = true)) as [E|E]; simpl; rewrite <- IH; reflexivity.
Qed.

Lemma zip_with_map_same {A B C D} (f : B -> C -> D) (a : A -> B) (b : A -> C) xs :
  zip_with f (map a xs) (map b xs) = map (fun x => f (a x) (b x)) xs.
Proof. induction xs as [|x xs IH]; [reflexivity|]. simpl. rewrite IH. reflexivity. Qed.

Lemma in_view_image_spec H W uv z :
  in_view_image H W uv z = true
  <-> (0 <= fst uv /\ 0 <= snd uv /\ fst uv < inject_Z W /\ snd uv < inject_Z H
       /\ 0 < z)%Q.
Proof.
  unfold in_view_image. rewrite !andb_true_iff, !Qleb_le, !Qltb_lt. tauto.
Qed.

Lemma in_view_bev_spec H W uv :
  in_view_bev H W uv = true
  <-> (0 <= fst uv /\ 0 <= snd uv /\ fst uv < inject_Z W /\ snd uv < inject_Z H)%Q.
Proof.
  unfold in_view_bev. rewrite !andb_true_iff, !Qleb_le, !Qltb_lt. tauto.
Qed.

(** A kept coordinate pair, cast to integers, is a pixel of the raster. *)
Lemma in_view_bev_on_raster H W uv :
  in_view_bev H W uv = true ->
  0 <= fst (trunc2 uv) < W /\ 0 <= snd (trunc2 uv) < H.
Proof.
  intros Hv. apply in_view_bev_spec in Hv as (Hu0 & Hv0 & HuW & HvH).
  unfold trunc2. simpl. split; apply Qtrunc_in_range; assumption.
Qed.

Lemma in_view_image_on_raster H W uv z :
  in_view_image H W uv z = true ->
  0 <= fst (trunc2 uv) < W /\ 0 <= snd (trunc2 uv) < H.
Proof.
  intros Hv. apply in_view_image_spec in Hv as (Hu0 & Hv0 & HuW & HvH & _).
  unfold trunc2. simpl. split; apply Qtrunc_in_range; assumption.
Qed.

(** ** Index writes that stay on the raster *)

Lemma np_setitem_on_raster img u v c :
  0 <= u < Z.of_nat (im_width img) ->
  0 <= v < Z.of_nat (im_height img) ->
  np_setitem img v u c = Ok (set_px img (u, v) c).
Proof.
  intros Hu Hv. unfold np_setitem, set_px.
  rewrite (np_index_direct _ _ Hu), (np_index_direct _ _ Hv).
  destruct (0 <=? u) eqn:E1; [|lia]. destruct (0 <=? v) eqn:E2; [|lia].
  reflexivity.
Qed.

Lemma np_scatter_on_raster ws : forall img,
  (forall w, w ∈ ws ->
     0 <= fst (fst w) < Z.of_nat (im_width img)
     /\ 0 <= snd (fst w) < Z.of_nat (im_height img)) ->
  np_scatter img ws = Ok (apply_writes img ws).
Proof.
  induction ws as [|[[u v] c] ws IH]; intros img Hws; [reflexivity|].
  simpl. destruct (Hws (u, v, c)) as [Hu Hv]; [left|]. simpl in Hu, Hv.
  rewrite (np_setitem_on_raster _ _ _ _ Hu Hv).
  rewrite IH; [reflexivity|].
  intros w Hw. rewrite set_px_width, set_px_height. apply Hws. right. exact Hw.
Qed.

Lemma apply_writes_paint img pts c :
  apply_writes img (map (fun p => (p, c)) pts) = paint img pts c.
Proof. symmetry. apply paint_apply_writes. Qed.

Lemma px_at_paint_notin img pts c u v :
  (u, v) ∉ pts -> px_at (paint img pts c) u v = px_at img u v.
Proof.
  revert img. induction pts as [|p pts IH]; intros img Hnin; [reflexivity|].
  change (paint img (p :: pts) c) with (paint (set_px img p c) pts c).
  apply not_elem_of_cons in Hnin as [Hne Hnin].
  rewrite IH by exact Hnin. rewrite px_at_set_px.
  destruct (decide (p = (u, v))); [congruence | reflexivity].
Qed.

(** On a well-formed raster every pixel inside the shape can be read. *)
Lemma px_at_on_raster img u v :
  well_formed img ->
  0 <= u < Z.of_nat (im_width img) ->
  0 <= v < Z.of_nat (im_height img) ->
  is_Some (px_at img u v).
Proof.
  intros Hwf Hu Hv. unfold px_at.
  destruct (0 <=? u) eqn:E1; [|lia]. destruct (0 <=? v) eqn:E2; [|lia]. simpl.
  destruct (lookup_lt_is_Some_2 (im_rows img) (Z.to_nat v)) as [r Hr].
  { unfold im_height in Hv. lia. }
  rewrite Hr. simpl. apply lookup_lt_is_Some_2.
  unfold well_formed in Hwf. rewrite Forall_forall in Hwf.
  rewrite (Hwf r) by (eapply list_elem_of_lookup_2, Hr). lia.
Qed.

Section PointCloudFacts.
Context `{cv : Cv2} `{nl : NumLib}.

(** The writes of the point-cloud-on-image renderer, point by point. *)
Lemma pointcloud_writes_filter camera Xw percentile H W :
  exists col : point3 -> color,
    pointcloud_writes camera Xw percentile H W
    = map (fun p => (trunc2 (K_project camera (p_cw camera p)), col p))
          (filter (fun p => in_view_image H W (K_project camera (p_cw camera p))
                                          (coord (p_cw camera p) 2) = true) Xw).
Proof.
  unfold pointcloud_writes, depth_colors.
  set (norm := np_percentile _ percentile).
  exists (fun p => shade ((1 / (coord (p_cw camera p) 2 + (1 # 1000000))) / norm)%Q).
  rewrite !map_map.
  rewrite (zip_with_map_same (in_view_image H W)
             (fun p => K_project camera (p_cw camera p))
             (fun p => coord (p_cw camera p) 2)).
  rewrite (mask_select_map
             (fun p => in_view_image H W (K_project camera (p_cw camera p))
                                     (coord (p_cw camera p) 2))
             (fun p => K_project camera (p_cw camera p))).
  rewrite (mask_select_map
             (fun p => in_view_image H W (K_project camera (p_cw camera p))
                                     (coord (p_cw camera p) 2))
             (fun p => shade ((1 / (coord (p_cw camera p) 2 + (1 # 1000000))) / norm)%Q)).
  rewrite map_map.
  apply (zip_with_map_same pair).
Qed.

Lemma pointcloud_writes_on_raster camera Xw percentile H W w :
  w ∈ pointcloud_writes camera Xw percentile H W ->
  0 <= fst (fst w) < W /\ 0 <= snd (fst w) < H.
Proof.
  destruct (pointcloud_writes_filter camera Xw percentile H W) as [col ->].
  intros Hw. apply list_elem_of_In, in_map_iff in Hw as [p [<- Hp]].
  apply list_elem_of_In, list_elem_of_filter in Hp as [Hp _].
  simpl. eapply in_view_image_on_raster, Hp.
Qed.

(** Closed form of a call of the point-cloud-on-image renderer. *)
Lemma render_pointcloud_on_image_run img camera Xw colormap percentile im
    (h : list image) :
  h !! img = Some im ->
  render_pointcloud_on_image img camera Xw colormap percentile h
  = (Ok (length h),
     h ++ [np_maximum
             (dilate (apply_writes (zeros_like im)
                        (pointcloud_writes camera Xw percentile
                           (Z.of_nat (im_height im)) (Z.of_nat (im_width im))))
                     5 5)
             im]).
Proof.
  intros Him. unfold render_pointcloud_on_image.
  rewrite (bind_Ok _ _ h h im) by (apply load_Some, Him).
  unfold shape.
  rewrite (bind_Ok _ _ h h
             (apply_writes (zeros_like im)
                (pointcloud_writes camera Xw percentile
                   (Z.of_nat (im_height im)) (Z.of_nat (im_width im))))).
  - reflexivity.
  - unfold lift. rewrite np_scatter_on_raster; [reflexivity|].
    intros w Hw. apply pointcloud_writes_on_raster in Hw.
    unfold zeros_like, zeros, im_height. simpl. rewrite length_replicate.
    exact Hw.
Qed.

Lemma bev_retained_filter pc2d H W :
  bev_retained pc2d H W
  = map trunc2 (filter (fun uv => in_view_bev H W uv = true) pc2d).
Proof.
  unfold bev_retained. apply mask_select_map.
Qed.

Lemma bev_retained_on_raster pc2d H W p :
  p ∈ bev_retained pc2d H W -> 0 <= fst p < W /\ 0 <= snd p < H.
Proof.
  rewrite bev_retained_filter. intros Hp.
  apply list_elem_of_In, in_map_iff in Hp as [uv [<- Huv]].
  apply list_elem_of_In, list_elem_of_filter in Huv as [Huv _].
  apply in_view_bev_on_raster, Huv.
Qed.

(** Closed form of a call of the BEV point-cloud renderer. *)
Lemma render_point_cloud_run self point_cloud pc2d raster (h : list image) :
  bev_project self point_cloud = Ok pc2d ->
  h !! data self = Some raster ->
  render_point_cloud self point_cloud h
  = (Ok tt,
     <[data self := paint raster
                      (bev_retained pc2d (Z.of_nat (im_height raster))
                                         (Z.of_nat (im_width raster)))
                      (128, 128, 128)]> h).
Proof.
  intros Hp Hd. unfold render_point_cloud.
  rewrite (bind_Ok _ _ h h pc2d) by (unfold lift; rewrite Hp; reflexivity).
  rewrite (bind_Ok _ _ h h raster) by (apply load_Some, Hd).
  unfold shape, modify_res.
  rewrite (bind_Ok _ _ h h raster) by (apply load_Some, Hd).
  erewrite bind_Ok; [reflexivity|].
  unfold lift. rewrite np_scatter_on_raster.
  - rewrite apply_writes_paint. reflexivity.
  - intros w Hw. apply list_elem_of_In, in_map_iff in Hw as [p [<- Hp']].
    apply list_elem_of_In, bev_retained_on_raster in Hp'. exact Hp'.
Qed.

End PointCloudFacts.

(** ** Which rasters a call touches *)

Section Frame.
Context {A B : Type}.

Lemma mutates_only_ret l (a : A) : mutates_only l (ret a).
Proof. intros h im Hl. exists im. simpl. symmetry. apply list_insert_id, Hl. Qed.

Lemma mutates_only_raise l e : mutates_only l (@raise A e).
Proof. intros h im Hl. exists im. simpl. symmetry. apply list_insert_id, Hl. Qed.

Lemma mutates_only_lift l (r : result A) : mutates_only l (lift r).
Proof. intros h im Hl. exists im. simpl. symmetry. apply list_insert_id, Hl. Qed.

Lemma mutates_only_py_get l (xs : list A) i : mutates_only l (py_get xs i).
Proof.
  unfold py_get. destruct (xs !! i); [apply mutates_only_ret | apply mutates_only_raise].
Qed.

Lemma mutates_only_bind l (m : M A) (k : A -> M B) :
  mutates_only l m -> (forall a, mutates_only l (k a)) -> mutates_only l (bind m k).
Proof.
  intros Hm Hk h im Hl. destruct (Hm h im Hl) as [im1 H1].
  unfold bind. destruct (m h) as [[a|e] h1]; simpl in H1; subst h1.
  - destruct (Hk a (<[l := im1]> h) im1) as [im2 H2].
    { eapply heap_insert_lookup, Hl. }
    exists im2. rewrite H2. apply list_insert_insert_eq.
  - exists im1. reflexivity.
Qed.

End Frame.

Lemma mutates_only_assert l b msg : mutates_only l (assert b msg).
Proof. destruct b; [apply mutates_only_ret | apply mutates_only_raise]. Qed.

Lemma mutates_only_load l l0 : mutates_only l (load l0).
Proof.
  intros h im Hl. exists im. unfold load.
  destruct (h !! l0); simpl; symmetry; apply list_insert_id, Hl.
Qed.

Lemma mutates_only_store l img : mutates_only l (store l img).
Proof. intros h im Hl. exists img. reflexivity. Qed.

Lemma mutates_only_modify l f : mutates_only l (modify l f).
Proof.
  unfold modify. apply mutates_only_bind; [apply mutates_only_load|].
  intros a. apply mutates_only_store.
Qed.

Lemma mutates_only_modify_res l f : mutates_only l (modify_res l f).
Proof.
  unfold modify_res. apply mutates_only_bind; [apply mutates_only_load|].
  intros a. apply mutates_only_bind; [apply mutates_only_lift|].
  intros b. apply mutates_only_store.
Qed.

Lemma mutates_only_for_enum_from {A} l (xs : list A) body :
  (forall idx x, mutates_only l (body idx x)) ->
  forall k, mutates_only l (for_enum_from k xs body).
Proof.
  intros Hb. induction xs as [|x xs IH]; intros k; simpl.
  - apply mutates_only_ret.
  - apply mutates_only_bind; [apply Hb | intros _; apply IH].
Qed.

Create HintDb frame.
#[local] Hint Resolve mutates_only_ret mutates_only_raise mutates_only_lift mutates_only_py_get
  mutates_only_assert mutates_only_load mutates_only_store mutates_only_modify
  mutates_only_modify_res : frame.

Ltac frame_step :=
  first
    [ apply mutates_only_bind; [|intros ?]
    | apply mutates_only_for_enum_from; intros ? ?
    | solve [auto with frame] ].

Section FrameOfModule.
Context `{cv : Cv2} `{nl : NumLib}.

Lemma mutates_only_cv2 l cmd : mutates_only l (cv2 l cmd).
Proof. apply mutates_only_modify. Qed.

Lemma print_status_frame img text : mutates_only img (print_status img text).
Proof.
  unfold print_status. apply mutates_only_bind; [apply mutates_only_load|].
  intros im. unfold shape.
  repeat first [apply mutates_only_cv2 | frame_step].
Qed.

Lemma render_bbox2d_frame img bboxes2d colors texts :
  mutates_only img (render_bbox2d_on_image img bboxes2d colors texts).
Proof.
  unfold render_bbox2d_on_image, for_enum.
  apply mutates_only_bind; [|intros _; apply mutates_only_bind; [|intros _; apply mutates_only_ret]].
  - destruct colors as [cs|]; [|apply mutates_only_cv2].
    repeat first [apply mutates_only_cv2 | frame_step].
  - destruct (truthy texts); [|apply mutates_only_ret].
    repeat first [apply mutates_only_cv2 | frame_step].
Qed.

Lemma render_point_cloud_frame self point_cloud :
  mutates_only (data self) (render_point_cloud self point_cloud).
Proof.
  unfold render_point_cloud.
  apply mutates_only_bind; [apply mutates_only_lift|]. intros pc2d.
  apply mutates_only_bind; [apply mutates_only_load|]. intros im.
  unfold shape. apply mutates_only_modify_res.
Qed.

Lemma render_bounding_box_3d_frame self bboxes3d color texts :
  mutates_only (data self) (render_bounding_box_3d self bboxes3d color texts).
Proof.
  unfold render_bounding_box_3d, for_enum.
  apply mutates_only_for_enum_from. intros bidx bbox.
  unfold render_one_box_3d.
  repeat first [apply mutates_only_cv2 | frame_step].
  destruct (truthy texts); repeat first [apply mutates_only_cv2 | frame_step].
Qed.

End FrameOfModule.

(** ** Loops of drawing calls *)

Section DrawLoops.
Context `{cv : Cv2}.

Lemma paint_width img pts c : im_width (paint img pts c) = im_width img.
Proof.
  revert img. induction pts as [|p pts IH]; intros img; [reflexivity|].
  change (paint img (p :: pts) c) with (paint (set_px img p c) pts c).
  rewrite IH. apply set_px_width.
Qed.

Lemma paint_height img pts c : im_height (paint img pts c) = im_height img.
Proof.
  revert img. induction pts as [|p pts IH]; intros img; [reflexivity|].
  change (paint img (p :: pts) c) with (paint (set_px img p c) pts c).
  rewrite IH. apply set_px_height.
Qed.

Lemma set_px_well_formed img p c : well_formed img -> well_formed (set_px img p c).
Proof.
  destruct p as [u v]. unfold set_px, well_formed.
  destruct ((0 <=? u) && (0 <=? v)); [|auto]. simpl. intros Hwf.
  apply Forall_alter; [exact Hwf|].
  intros r _ Hr. rewrite length_insert. exact Hr.
Qed.

Lemma paint_well_formed img pts c : well_formed img -> well_formed (paint img pts c).
Proof.
  revert img. induction pts as [|p pts IH]; intros img Hwf; [exact Hwf|].
  change (paint img (p :: pts) c) with (paint (set_px img p c) pts c).
  apply IH, set_px_well_formed, Hwf.
Qed.

Lemma zeros_well_formed h w : well_formed (zeros h w).
Proof.
  unfold well_formed, zeros. simpl.
  apply Forall_replicate. apply length_replicate.
Qed.

(** One drawing call followed by the rest of the computation. *)
Lemma bind_cv2 {B} l cmd (k : unit -> M B) im (h : list image) :
  h !! l = Some im ->
  bind (cv2 l cmd) k h = k tt (<[l := cv2_draw cmd im]> h).
Proof.
  intros Hl. apply bind_Ok. unfold cv2. apply modify_Some, Hl.
Qed.

(** A loop whose body is one drawing call folds the calls over the raster. *)
Lemma for_each_draw {A} l (cmd : A -> draw_cmd) (xs : list A) :
  forall im (h : list image),
    h !! l = Some im ->
    for_each xs (fun x => cv2 l (cmd x)) h
    = (Ok tt, <[l := fold_left (fun im0 x => cv2_draw (cmd x) im0) xs im]> h).
Proof.
  unfold for_each, for_enum. generalize 0%nat.
  induction xs as [|x xs IH]; intros k im h Hl.
  - simpl. rewrite (heap_insert_id _ _ _ Hl). reflexivity.
  - simpl. rewrite (bind_cv2 _ _ _ _ _ Hl).
    rewrite (IH (S k) (cv2_draw (cmd x) im)) by (eapply heap_insert_lookup, Hl).
    rewrite list_insert_insert_eq. reflexivity.
Qed.

End DrawLoops.


Lemma Qtrunc_lt_inv q n : (0 <= q)%Q -> Qtrunc q < n -> (q < inject_Z n)%Q.
Proof.
  unfold Qle, Qlt, Qtrunc. simpl. intros H0 H.
  destruct (Z_lt_le_dec (Qnum q * 1) (n * Z.pos (Qden q))) as [Hlt|Hge]; [exact Hlt|].
  exfalso. assert (n <= Qnum q ÷ Z.pos (Qden q)); [|lia].
  apply Z.quot_le_lower_bound; lia.
Qed.



Section Handles.
Context `{cv : Cv2} `{nl : NumLib}.

(** Closed form of [print_status]. *)
Lemma print_status_run img text im (h : list image) :
  h !! img = Some im ->
  let H := Z.of_nat (im_height im) in
  let W := Z.of_nat (im_width im) in
  print_status img text h
  = (Ok img,
     <[img := put_text (paint im (rect_px (0, H - 40) (W, H) (-1)) COLOR_DARKGRAY)
                         text (5, H - 5) (8 # 10) COLOR_WHITE 1 LINE_8]> h).
Proof.
  intros Him H W. unfold print_status.
  rewrite (bind_Ok _ _ h h im) by (apply load_Some, Him).
  unfold shape. fold H W.
  rewrite (bind_cv2 _ _ _ _ _ Him).
  rewrite (bind_cv2 _ _ _ _ _ (heap_insert_lookup _ _ _ _ Him)).
  rewrite list_insert_insert_eq. reflexivity.
Qed.

(** A successful call of the 2D box renderer returns its argument. *)
Lemma render_bbox2d_returns img bboxes2d colors texts (h : list image) r :
  fst (render_bbox2d_on_image img bboxes2d colors texts h) = Ok r -> r = img.
Proof.
  unfold render_bbox2d_on_image, bind.
  match goal with |- context [match ?m h with _ => _ end] => destruct (m h) as [[[]|e] h1] end;
    [|discriminate].
  match goal with |- context [match ?m h1 with _ => _ end] => destruct (m h1) as [[[]|e] h2] end;
    [|discriminate].
  simpl. congruence.
Qed.

End Handles.


Section Box3dFacts.
Context `{cv : Cv2}.

Lemma map_lookup {A B} (f : A -> B) (l : list A) i :
  map f l !! i = f <$> (l !! i).
Proof. revert i. induction l as [|x l IH]; intros [|i]; simpl; auto. Qed.

Lemma bind_py_get {A B} (xs : list A) i x (k : A -> M B) (h : list image) :
  xs !! i = Some x -> bind (py_get xs i) k h = k x h.
Proof. intros Hx. unfold bind, py_get. rewrite Hx. reflexivity. Qed.

(** Reading a projected corner of a box. *)
Lemma lookup_corner {A B} (f : A -> B) {n} (v : vec A n) (i : fin n) :
  map f (vec_to_list v) !! fin_to_nat i = Some (f (v !!! i)).
Proof.
  rewrite map_lookup.
  rewrite (proj1 (vlookup_lookup v i (v !!! i)) eq_refl). reflexivity.
Qed.

Lemma bev_project_pixels self pts kx ky :
  np_index 3 (_xaxis self) = Some kx ->
  np_index 3 (_yaxis self) = Some ky ->
  bev_project self pts
  = Ok (map (fun p => bev_pixel self (coord p kx, coord p ky)) pts).
Proof.
  intros Hx Hy. unfold bev_project, np_column. rewrite Hx, Hy. simpl. f_equal.
  rewrite (zip_with_map_same pair), map_map. reflexivity.
Qed.

(** The drawing calls made for one box, in order. *)
Lemma render_one_box_3d_run self colors texts bidx bbox kx ky col0 col2 col3 raster
    (h : list image) :
  np_index 3 (_xaxis self) = Some kx ->
  np_index 3 (_yaxis self) = Some ky ->
  colors !! 0%nat = Some col0 -> colors !! 2%nat = Some col2 ->
  colors !! 3%nat = Some col3 ->
  (truthy texts = true -> is_Some (default [] texts !! bidx)) ->
  h !! data self = Some raster ->
  let pixel := fun p : point3 => bev_pixel self (coord p kx, coord p ky) in
  let corner := fun i : fin 8 => trunc2 (pixel (corners bbox !!! i)) in
  let center := trunc2 (mean2 (map pixel (vec_to_list (corners bbox)))) in
  render_one_box_3d self colors texts bidx bbox h
  = (Ok tt,
     <[data self :=
         fold_left (fun im cmd => cv2_draw cmd im)
           ([ Circle center 1 COLOR_GREEN 1;
              Line center ((fst (corner 0%fin) + fst (corner 1%fin)) / 2,
                           (snd (corner 0%fin) + snd (corner 1%fin)) / 2)
                   COLOR_WHITE 2;
              Line (corner 0%fin) (corner 1%fin) col0 2;
              Line (corner 3%fin) (corner 4%fin) col3 2;
              Line (corner 1%fin) (corner 5%fin) col3 2;
              Line (corner 4%fin) (corner 5%fin) col2 2 ]
            ++ (if truthy texts
                then match default [] texts !! bidx with
                     | Some t => [PutText t (corner 0%fin) (1 # 2) COLOR_WHITE 2 LINE_AA]
                     | None => []
                     end
                else []))
           raster]> h).
Proof.
  intros Hx Hy H0 H2 H3 Ht Hd pixel corner center.
  unfold render_one_box_3d.
  rewrite (bind_Ok _ _ h h (map pixel (vec_to_list (corners bbox))))
    by (unfold lift; rewrite (bev_project_pixels _ _ _ _ Hx Hy); reflexivity).
  fold center. rewrite map_map.
  pose proof (lookup_corner (fun p => trunc2 (pixel p)) (corners bbox)) as Hc.
  rewrite (bind_cv2 _ _ _ _ _ Hd).
  rewrite (bind_py_get _ _ _ _ _ (Hc 0%fin)).
  rewrite (bind_py_get _ _ _ _ _ (Hc 1%fin)).
  fold (corner 0%fin) (corner 1%fin).
  rewrite (bind_cv2 _ _ _ _ _ (heap_insert_lookup _ _ _ _ Hd)), list_insert_insert_eq.
  rewrite (bind_py_get _ _ _ _ _ H0).
  rewrite (bind_cv2 _ _ _ _ _ (heap_insert_lookup _ _ _ _ Hd)), list_insert_insert_eq.
  rewrite (bind_py_get _ _ _ _ _ (Hc 3%fin)).
  rewrite (bind_py_get _ _ _ _ _ (Hc 4%fin)).
  rewrite (bind_py_get _ _ _ _ _ H3).
  fold (corner 3%fin) (corner 4%fin).
  rewrite (bind_cv2 _ _ _ _ _ (heap_insert_lookup _ _ _ _ Hd)), list_insert_insert_eq.
  rewrite (bind_py_get _ _ _ _ _ (Hc 5%fin)).
  fold (corner 5%fin).
  rewrite (bind_cv2 _ _ _ _ _ (heap_insert_lookup _ _ _ _ Hd)), list_insert_insert_eq.
  rewrite (bind_py_get _ _ _ _ _ H2).
  rewrite (bind_cv2 _ _ _ _ _ (heap_insert_lookup _ _ _ _ Hd)), list_insert_insert_eq.
  destruct (truthy texts) eqn:Et.
  - destruct (Ht eq_refl) as [t Hlab]. rewrite Hlab.
    rewrite (bind_py_get _ _ _ _ _ Hlab).
    unfold cv2. rewrite (modify_Some _ _ _ _ (heap_insert_lookup _ _ _ _ Hd)).
    rewrite list_insert_insert_eq. reflexivity.
  - reflexivity.
Qed.

End Box3dFacts.

Section Box3dLoop.
Context `{cv : Cv2}.

(** A loop whose body amounts to a list of drawing calls. *)
Lemma for_enum_from_draws {A} l (body : nat -> A -> M unit)
    (cmds : nat -> A -> list draw_cmd) (xs : list A) :
  forall k,
    (forall i x, xs !! i = Some x ->
       forall im (h : list image), h !! l = Some im ->
         body (k + i)%nat x h
         = (Ok tt, <[l := fold_left (fun im0 cmd => cv2_draw cmd im0)
                                    (cmds (k + i)%nat x) im]> h)) ->
    forall im (h : list image), h !! l = Some im ->
      for_enum_from k xs body h
      = (Ok tt,
         <[l := fold_left (fun im0 cmd => cv2_draw cmd im0)
                  (flat_map (fun ix => cmds (fst ix) (snd ix))
                            (zip (seq k (length xs)) xs)) im]> h).
Proof.
  induction xs as [|x xs IH]; intros k Hb im h Hl.
  - simpl. rewrite (heap_insert_id _ _ _ Hl). reflexivity.
  - cbn [for_enum_from length seq zip zip_with flat_map fst snd].
    pose proof (Hb 0%nat x eq_refl im h Hl) as H0. rewrite Nat.add_0_r in H0.
    rewrite (bind_Ok _ _ _ _ _ H0).
    rewrite (IH (S k)) with (im := fold_left (fun im0 cmd => cv2_draw cmd im0) (cmds k x) im).
    + rewrite list_insert_insert_eq, fold_left_app. reflexivity.
    + intros i y Hy im0 h0 Hl0.
      replace (S k + i)%nat with (k + S i)%nat by lia.
      apply (Hb (S i) y Hy im0 h0 Hl0).
    + eapply heap_insert_lookup, Hl.
Qed.

End Box3dLoop.


(** ** The mosaic *)

Lemma ceil_div_pos N g : 0 < N -> 0 < g -> 0 < ceil_div N g /\ N <= g * ceil_div N g.
Proof.
  intros HN Hg. unfold ceil_div.
  pose proof (Z.div_mod (- N) g ltac:(lia)) as Hdm.
  pose proof (Z.mod_pos_bound (- N) g Hg) as Hr.
  split; nia.
Qed.

Lemma ceil_div_mul g k : g <> 0 -> ceil_div (g * k) g = k.
Proof.
  intros Hg. unfold ceil_div.
  replace (- (g * k)) with ((- k) * g) by ring.
  rewrite Z.div_mul by exact Hg. lia.
Qed.

Lemma ceil_div_neg_divisor N g : 0 <= N -> g < 0 -> ceil_div N g <= 0.
Proof.
  intros HN Hg. unfold ceil_div.
  assert (0 <= (- N) / g); [|lia].
  pose proof (Z.div_mod (- N) g ltac:(lia)) as Hdm.
  pose proof (Z.mod_neg_bound (- N) g Hg) as Hr.
  nia.
Qed.

Lemma map_res_Ok {A B} (f : A -> result B) (g : A -> B) (xs : list A) :
  (forall x, x ∈ xs -> f x = Ok (g x)) -> map_res f xs = Ok (map g xs).
Proof.
  induction xs as [|x xs IH]; intros Hf; [reflexivity|].
  simpl. rewrite Hf by left. simpl. rewrite IH; [reflexivity|].
  intros y Hy. apply Hf. right. exact Hy.
Qed.

Lemma hstack2_height a b :
  im_height b = im_height a -> im_height (hstack2 a b) = im_height a.
Proof.
  unfold im_height, hstack2. simpl. intros Hb.
  rewrite length_zip_with. lia.
Qed.

Lemma fold_hstack2_dims hh ww rest : forall t,
  im_height t = hh ->
  Forall (fun x => im_height x = hh /\ im_width x = ww) rest ->
  im_height (fold_left hstack2 rest t) = hh
  /\ im_width (fold_left hstack2 rest t) = (im_width t + length rest * ww)%nat.
Proof.
  induction rest as [|x rest IH]; intros t Ht Hall; simpl.
  - split; [exact Ht | lia].
  - inversion Hall as [|? ? [Hx Hw] Hrest]; subst.
    destruct (IH (hstack2 t x)) as [H1 H2].
    + rewrite hstack2_height; congruence.
    + exact Hrest.
    + split; [exact H1|]. rewrite H2. simpl. lia.
Qed.

Lemma np_hstack_dims hh ww tiles :
  tiles <> [] ->
  Forall (fun x => im_height x = hh /\ im_width x = ww) tiles ->
  exists s, np_hstack tiles = Ok s
            /\ im_height s = hh /\ im_width s = (length tiles * ww)%nat.
Proof.
  destruct tiles as [|t rest]; [congruence|]. intros _ Hall.
  inversion Hall as [|? ? [Ht Hw] Hrest]; subst.
  exists (fold_left hstack2 rest t). unfold np_hstack.
  assert (E : forallb (fun x => Nat.eqb (im_height x) (im_height t)) rest = true).
  { apply forallb_forall. intros x Hx. apply Nat.eqb_eq.
    rewrite Forall_forall in Hrest. apply list_elem_of_In in Hx.
    apply Hrest in Hx. tauto. }
  rewrite E. split; [reflexivity|].
  destruct (fold_hstack2_dims (im_height t) (im_width t) rest t eq_refl Hrest) as [H1 H2].
  split; [exact H1|]. rewrite H2. simpl. lia.
Qed.

Lemma fold_vstack2_dims hh ww rest : forall t,
  im_width t = ww ->
  Forall (fun x => im_height x = hh /\ im_width x = ww) rest ->
  im_width (fold_left vstack2 rest t) = ww
  /\ im_height (fold_left vstack2 rest t) = (im_height t + length rest * hh)%nat.
Proof.
  induction rest as [|x rest IH]; intros t Ht Hall; simpl.
  - split; [exact Ht | lia].
  - inversion Hall as [|? ? [Hx Hw] Hrest]; subst.
    destruct (IH (vstack2 t x)) as [H1 H2]; [reflexivity | exact Hrest |].
    split; [exact H1|]. rewrite H2. unfold im_height, vstack2. simpl.
    rewrite length_app. unfold im_height. lia.
Qed.

Lemma np_vstack_dims hh ww strips :
  strips <> [] ->
  Forall (fun x => im_height x = hh /\ im_width x = ww) strips ->
  exists s, np_vstack strips = Ok s
            /\ im_height s = (length strips * hh)%nat /\ im_width s = ww.
Proof.
  destruct strips as [|t rest]; [congruence|]. intros _ Hall.
  inversion Hall as [|? ? [Ht Hw] Hrest]; subst.
  exists (fold_left vstack2 rest t). unfold np_vstack.
  assert (E : forallb (fun x => Nat.eqb (im_width x) (im_width t)) rest = true).
  { apply forallb_forall. intros x Hx. apply Nat.eqb_eq.
    rewrite Forall_forall in Hrest. apply list_elem_of_In in Hx.
    apply Hrest in Hx. tauto. }
  rewrite E. split; [reflexivity|].
  destruct (fold_vstack2_dims (im_height t) (im_width t) rest t eq_refl Hrest) as [H1 H2].
  split; [|exact H1]. rewrite H2. simpl. lia.
Qed.

Lemma map_res_Forall {A B} (f : A -> result B) (P : B -> Prop) (xs : list A) :
  (forall x, x ∈ xs -> exists y, f x = Ok y /\ P y) ->
  exists ys, map_res f xs = Ok ys /\ length ys = length xs /\ Forall P ys.
Proof.
  induction xs as [|x xs IH]; intros Hf.
  - exists []. simpl. auto.
  - destruct (Hf x) as [y [Hy HP]]; [left|].
    destruct IH as [ys [Hys [Hlen Hall]]].
    { intros z Hz. apply Hf. right. exact Hz. }
    exists (y :: ys). simpl. rewrite Hy. simpl. rewrite Hys. simpl.
    split; [reflexivity|]. split; [lia|]. constructor; assumption.
Qed.

Lemma add_border_dims img t b l r :
  im_height (add_border img t b l r) = (t + im_height img + b)%nat
  /\ im_width (add_border img t b l r) = (l + im_width img + r)%nat.
Proof.
  unfold add_border, im_height. simpl.
  rewrite !length_app, !length_replicate, length_map. split; lia.
Qed.

Section MosaicFacts.
Context `{cv : Cv2}.

Lemma Qtrunc_zero_mul s : Qtrunc (inject_Z 0 * s) = 0.
Proof. unfold Qtrunc. simpl. reflexivity. Qed.

(** The tile loop: item [j] resized while there are items, black after. *)
Lemma mosaic_tiles_run (items : list image) (tw th : Z) n :
  0 < tw -> 0 < th -> items <> [] ->
  Forall (fun it => im_height it <> 0%nat /\ im_width it <> 0%nat) items ->
  fold_left (mosaic_tile items (Z.of_nat (length items)) (tw, th))
            (map Z.of_nat (seq 0 n)) (Ok [])
  = Ok (map (fun j => match items !! j with
                      | Some it => resize it (Z.to_nat tw) (Z.to_nat th)
                      | None => zeros (Z.to_nat th) (Z.to_nat tw)
                      end) (seq 0 n)).
Proof.
  intros Htw Hth Hne Hall.
  set (tile := fun j => match items !! j with
                        | Some it => resize it (Z.to_nat tw) (Z.to_nat th)
                        | None => zeros (Z.to_nat th) (Z.to_nat tw)
                        end).
  assert (Htile : forall j, zeros_like (tile j) = zeros (Z.to_nat th) (Z.to_nat tw)).
  { intros j. unfold tile, zeros_like. destruct (items !! j).
    - rewrite resize_height, resize_width. reflexivity.
    - unfold zeros, im_height. simpl. rewrite length_replicate. reflexivity. }
  induction n as [|n IH]; [reflexivity|].
  rewrite seq_S, map_app, fold_left_app, IH. simpl.
  rewrite map_app.
  change (map tile [n]) with [tile n].
  destruct (Z.of_nat n <? Z.of_nat (length items)) eqn:E.
  - apply Z.ltb_lt in E.
    destruct (lookup_lt_is_Some_2 items n ltac:(lia)) as [it Hit].
    unfold get_res. rewrite Nat2Z.id, Hit. cbn [rbind].
    rewrite Forall_forall in Hall.
    destruct (Hall it (list_elem_of_lookup_2 _ _ _ Hit)) as [Hh Hw].
    destruct (0 <? tw) eqn:E1; [|lia]. destruct (0 <? th) eqn:E2; [|lia].
    apply Nat.eqb_neq in Hh, Hw. rewrite Hh, Hw. cbn [andb negb rbind].
    unfold tile at 3. rewrite Hit. reflexivity.
  - apply Z.ltb_ge in E.
    assert (Hn : (0 < n)%nat) by (destruct items; [congruence | simpl in E; lia]).
    destruct n as [|m]; [lia|].
    assert (Htn : tile (S m) = zeros (Z.to_nat th) (Z.to_nat tw)).
    { unfold tile. rewrite (proj2 (lookup_ge_None items (S m))) by lia. reflexivity. }
    rewrite Htn.
    unfold last_res. rewrite seq_S, map_app.
    change (map tile [(0 + m)%nat]) with [tile (0 + m)%nat].
    rewrite last_snoc. cbn [rbind]. rewrite Htile.
    reflexivity.
Qed.

Lemma copyMakeBorder_pad im pad :
  0 <= pad ->
  copyMakeBorder im pad pad pad pad
  = Ok (add_border im (Z.to_nat pad) (Z.to_nat pad) (Z.to_nat pad) (Z.to_nat pad)).
Proof.
  intros Hp. unfold copyMakeBorder.
  destruct (0 <=? pad) eqn:E; [reflexivity | lia].
Qed.

(** The padded tiles of the mosaic. *)
Lemma mosaic_items_run (items : list image) scale pad g gh H W :
  items <> [] ->
  Forall (fun it => shape it = (H, W)) items ->
  0 < Qtrunc (inject_Z W * scale) -> 0 < Qtrunc (inject_Z H * scale) -> 0 <= pad ->
  mosaic_items items scale pad g gh
  = Ok (map (fun j =>
               add_border
                 match items !! j with
                 | Some it => resize it (Z.to_nat (Qtrunc (inject_Z W * scale)))
                                        (Z.to_nat (Qtrunc (inject_Z H * scale)))
                 | None => zeros (Z.to_nat (Qtrunc (inject_Z H * scale)))
                                 (Z.to_nat (Qtrunc (inject_Z W * scale)))
                 end
                 (Z.to_nat pad) (Z.to_nat pad) (Z.to_nat pad) (Z.to_nat pad))
            (seq 0 (Z.to_nat (g * gh)))).
Proof.
  intros Hne Hall Htw Hth Hp. unfold mosaic_items.
  destruct items as [|first rest] eqn:Hitems; [congruence|].
  rewrite <- Hitems in *.
  assert (Hfirst : get_res items 0 = Ok first) by (rewrite Hitems; reflexivity).
  rewrite Hfirst. cbn [rbind]. cbv zeta.
  assert (Hs : shape first = (H, W)).
  { rewrite Forall_forall in Hall. apply Hall. rewrite Hitems. left. }
  rewrite Hs. cbn [fst snd].
  unfold range. rewrite mosaic_tiles_run; try assumption.
  - cbn [rbind]. rewrite (map_res_Ok _ (fun im => add_border im (Z.to_nat pad) (Z.to_nat pad)
                                         (Z.to_nat pad) (Z.to_nat pad))).
    + rewrite map_map. reflexivity.
    + intros x _. apply copyMakeBorder_pad, Hp.
  - rewrite Forall_forall in Hall |- *. intros it Hit.
    specialize (Hall it Hit). unfold shape in Hall. injection Hall as HH HW.
    split; intros E; rewrite E in *; simpl in *; subst.
    + rewrite Qtrunc_zero_mul in Hth. lia.
    + rewrite Qtrunc_zero_mul in Htw. lia.
Qed.

End MosaicFacts.

Section MosaicClaims.
Context `{cv : Cv2}.

Lemma mosaic_stack (tiles : list image) g gh hh ww :
  0 < g -> 0 < gh ->
  length tiles = Z.to_nat (g * gh) ->
  Forall (fun x => im_height x = hh /\ im_width x = ww) tiles ->
  exists out,
    (let? starts := range_step 0 (Z.of_nat (length tiles)) g in
     let? hstack := map_res (fun j => np_hstack (slice tiles j (j + g))) starts in
     if (1 <? length hstack)%nat then np_vstack hstack else get_res hstack 0)
    = Ok out
    /\ im_height out = (Z.to_nat gh * hh)%nat
    /\ im_width out = (Z.to_nat g * ww)%nat.
Proof.
  intros Hg Hgh Hlen Hall.
  unfold range_step. destruct (g =? 0) eqn:Eg; [lia|]. cbn [rbind].
  rewrite Hlen, Z2Nat.id, Z.sub_0_r, ceil_div_mul by lia.
  destruct (map_res_Forall
              (fun j => np_hstack (slice tiles j (j + g)))
              (fun s => im_height s = hh /\ im_width s = (Z.to_nat g * ww)%nat)
              (map (fun k => 0 + Z.of_nat k * g) (seq 0 (Z.to_nat gh))))
    as [strips [Hstrips [Hslen Hsall]]].
  { intros j Hj. apply list_elem_of_In, in_map_iff in Hj as [k [<- Hk]].
    apply in_seq in Hk.
    set (chunk := slice tiles (0 + Z.of_nat k * g) (0 + Z.of_nat k * g + g)).
    assert (Hchunk : length chunk = Z.to_nat g).
    { unfold chunk, slice. rewrite length_take, length_drop, Hlen.
      replace (0 + Z.of_nat k * g + g - (0 + Z.of_nat k * g)) with g by lia.
      assert (Z.of_nat k * g + g <= g * gh) by nia.
      lia. }
    destruct (np_hstack_dims hh ww chunk) as [s [Hs [Hh Hw]]].
    - intros E. rewrite E in Hchunk. simpl in Hchunk. lia.
    - unfold chunk, slice. apply Forall_take, Forall_drop, Hall.
    - exists s. rewrite Hchunk in Hw. auto. }
  rewrite Hstrips. cbn [rbind].
  rewrite length_map, length_seq in Hslen.
  destruct (1 <? length strips)%nat eqn:E1.
  - destruct (np_vstack_dims hh (Z.to_nat g * ww)%nat strips) as [out [Hout [Hh Hw]]].
    + intros E. rewrite E in Hslen. simpl in Hslen. lia.
    + exact Hsall.
    + exists out. rewrite Hslen in Hh. auto.
  - apply Nat.ltb_ge in E1.
    destruct strips as [|s [|s' strips]]; [simpl in Hslen; lia | | simpl in E1; lia].
    exists s. inversion Hsall as [|? ? [Hh Hw] _]; subst.
    split; [reflexivity|]. simpl in Hslen. rewrite <- Hslen. split; lia.
Qed.

Lemma mosaic_grid_width_given N grid_width :
  0 < N ->
  match grid_width with Some g0 => 0 < g0 | None => True end ->
  mosaic_grid_width N grid_width
  = match grid_width with Some g0 => g0 | None => Z.sqrt_up N end
  /\ 0 < mosaic_grid_width N grid_width.
Proof.
  intros HN Hg. unfold mosaic_grid_width. destruct grid_width as [g0|].
  - destruct (g0 =? 0) eqn:E; [lia|]. split; [reflexivity | exact Hg].
  - split; [reflexivity|]. apply Z.sqrt_up_pos, HN.
Qed.

End MosaicClaims.


(** C6 (as amended).  [mosaic] raises its assertion on an empty list of
    images and fails on a negative grid width; a grid width of zero is
    taken as not given, so the call proceeds with [ceil(sqrt(N))]. *)
Theorem mosaic_rejects `{cv : Cv2} (items : list image) (scale : Q) (pad : Z) :
  (forall grid_width,
     mosaic [] scale pad grid_width = Raise (AssertionError "No items to mosaic!"))
  /\ (forall g, g < 0 -> is_ok (mosaic items scale pad (Some g)) = false)
  /\ mosaic items scale pad (Some 0) = mosaic items scale pad None.
Proof.
  split; [|split].
  - reflexivity.
  - intros g Hg. unfold mosaic.
    destruct (0 <? Z.of_nat (length items)) eqn:E; [|reflexivity]. cbn [negb].
    assert (Hgw : mosaic_grid_width (Z.of_nat (length items)) (Some g) = g).
    { unfold mosaic_grid_width. destruct (g =? 0) eqn:E0; [lia | reflexivity]. }
    rewrite Hgw.
    destruct (mosaic_items items scale pad g _) as [tiles|e]; [|reflexivity].
    cbn [rbind]. unfold range_step. destruct (g =? 0) eqn:E0; [lia|]. cbn [rbind].
    assert (Hc : Z.to_nat (ceil_div (Z.of_nat (length tiles) - 0) g) = 0%nat).
    { pose proof (ceil_div_neg_divisor (Z.of_nat (length tiles) - 0) g). lia. }
    rewrite Hc. reflexivity.
  - reflexivity.
Qed.

(** ** The claims on concrete inputs *)







(** Counterexample to C6 as stated: with [grid_width = 0] the call on one
    1 x 1 image returns the mosaic of the default grid. *)
Lemma mosaic_zero_grid_width_succeeds :
  mosaic (cv := sample_cv2) [zeros 1 1] 1 0 (Some 0) = Ok (zeros 1 1)
  /\ ~ (forall items scale pad g,
          g <= 0 -> is_ok (mosaic (cv := sample_cv2) items scale pad (Some g)) = false).
Proof.
  split; [vm_compute; reflexivity|].
  intros H. specialize (H [zeros 1 1] 1%Q 0 0 ltac:(lia)).
  vm_compute in H. discriminate.
Qed.

Lemma mosaic_rejects_witness :
  mosaic (cv := sample_cv2) [] 1 3 None = Raise (AssertionError "No items to mosaic!")
  /\ is_ok (mosaic (cv := sample_cv2) [zeros 1 1] 1 3 (Some (-2))) = false.
Proof.
  destruct (mosaic_rejects (cv := sample_cv2) [zeros 1 1] 1 3) as (H1 & H2 & _).
  split; [apply H1|]. apply H2. lia.
Defined.






(** * Further properties of the code *)

(** * Further properties of the module *)

(** ** Drawing calls keep the shape of a raster *)

Lemma apply_writes_width img ws : im_width (apply_writes img ws) = im_width img.
Proof.
  revert img. induction ws as [|w ws IH]; intros img; [reflexivity|].
  unfold apply_writes in *. simpl. rewrite IH. apply set_px_width.
Qed.

Lemma apply_writes_height img ws : im_height (apply_writes img ws) = im_height img.
Proof.
  revert img. induction ws as [|w ws IH]; intros img; [reflexivity|].
  unfold apply_writes in *. simpl. rewrite IH. apply set_px_height.
Qed.

Lemma apply_writes_well_formed img ws :
  well_formed img -> well_formed (apply_writes img ws).
Proof.
  revert img. induction ws as [|w ws IH]; intros img Hwf; [exact Hwf|].
  unfold apply_writes in *. simpl. apply IH, set_px_well_formed, Hwf.
Qed.

Lemma px_at_apply_writes_notin img ws u v :
  (u, v) ∉ map fst ws -> px_at (apply_writes img ws) u v = px_at img u v.
Proof.
  revert img. induction ws as [|[p c] ws IH]; intros img Hnin; [reflexivity|].
  unfold apply_writes in *. simpl in *.
  apply not_elem_of_cons in Hnin as [Hne Hnin].
  rewrite IH by exact Hnin. rewrite px_at_set_px.
  destruct (decide (p = (u, v))); [congruence | reflexivity].
Qed.

Section ShapeOfDraws.
Context `{cv : Cv2}.

Lemma cv2_polylines_writes img polys closed c t :
  cv2_polylines img polys closed c t
  = apply_writes img (flat_map (fun poly => map (fun p => (p, c)) (poly_px poly closed t))
                               polys).
Proof.
  unfold cv2_polylines. revert img.
  induction polys as [|poly polys IH]; intros img; [reflexivity|].
  simpl. rewrite IH, apply_writes_app, paint_apply_writes. reflexivity.
Qed.

(** Every drawing call but text keeps the shape. *)
Lemma cv2_draw_shape cmd img :
  is_shape_cmd cmd = true ->
  im_height (cv2_draw cmd img) = im_height img
  /\ im_width (cv2_draw cmd img) = im_width img
  /\ (well_formed img -> well_formed (cv2_draw cmd img)).
Proof.
  destruct cmd; intros Hs; try discriminate; simpl;
    try (split; [apply paint_height | split; [apply paint_width | apply paint_well_formed]]).
  rewrite cv2_polylines_writes.
  split; [apply apply_writes_height | split; [apply apply_writes_width
                                              | apply apply_writes_well_formed]].
Qed.

End ShapeOfDraws.

Section KeepsShape.
Context {A B : Type}.

Lemma keeps_shape_pure l (m : M A) :
  (forall h : list image, snd (m h) = h) -> keeps_shape l m.
Proof.
  intros Hm h im Hl. exists im. rewrite Hm.
  split; [symmetry; apply list_insert_id, Hl | auto].
Qed.

Lemma keeps_shape_bind l (m : M A) (k : A -> M B) :
  keeps_shape l m -> (forall a, keeps_shape l (k a)) -> keeps_shape l (bind m k).
Proof.
  intros Hm Hk h im Hl. destruct (Hm h im Hl) as [im1 (H1 & Hh1 & Hw1 & Hwf1)].
  unfold bind. destruct (m h) as [[a|e] h1]; simpl in H1; subst h1.
  - destruct (Hk a (<[l := im1]> h) im1) as [im2 (H2 & Hh2 & Hw2 & Hwf2)].
    { eapply heap_insert_lookup, Hl. }
    exists im2. rewrite H2, list_insert_insert_eq.
    split; [reflexivity|]. split; [congruence|]. split; [congruence | auto].
  - exists im1. auto.
Qed.

End KeepsShape.

Lemma keeps_shape_ret {A} l (a : A) : keeps_shape l (ret a).
Proof. apply keeps_shape_pure. reflexivity. Qed.

Lemma keeps_shape_raise {A} l e : keeps_shape l (@raise A e).
Proof. apply keeps_shape_pure. reflexivity. Qed.

Lemma keeps_shape_lift {A} l (r : result A) : keeps_shape l (lift r).
Proof. apply keeps_shape_pure. reflexivity. Qed.

Lemma keeps_shape_py_get {A} l (xs : list A) i : keeps_shape l (py_get xs i).
Proof.
  apply keeps_shape_pure. intros h. unfold py_get. destruct (xs !! i); reflexivity.
Qed.

Lemma keeps_shape_assert l b msg : keeps_shape l (assert b msg).
Proof. apply keeps_shape_pure. intros h. destruct b; reflexivity. Qed.

Lemma keeps_shape_load l l0 : keeps_shape l (load l0).
Proof.
  apply keeps_shape_pure. intros h. unfold load. destruct (h !! l0); reflexivity.
Qed.

Lemma keeps_shape_for_enum_from {A} l (xs : list A) body :
  (forall idx x, keeps_shape l (body idx x)) ->
  forall k, keeps_shape l (for_enum_from k xs body).
Proof.
  intros Hb. induction xs as [|x xs IH]; intros k; simpl.
  - apply keeps_shape_ret.
  - apply keeps_shape_bind; [apply Hb | intros _; apply IH].
Qed.

Lemma keeps_shape_cv2 `{cv : Cv2} l cmd :
  is_shape_cmd cmd = true -> keeps_shape l (cv2 l cmd).
Proof.
  intros Hs h im Hl. exists (cv2_draw cmd im).
  unfold cv2. rewrite (modify_Some _ _ _ _ Hl). simpl.
  split; [reflexivity|]. apply cv2_draw_shape, Hs.
Qed.

(** An index scatter keeps the shape, and changes nothing when it raises. *)
Lemma np_setitem_shape img v u c img' :
  np_setitem img v u c = Ok img' ->
  im_height img' = im_height img /\ im_width img' = im_width img
  /\ (well_formed img -> well_formed img').
Proof.
  unfold np_setitem.
  destruct (np_index (im_height img) v) as [r|]; [|discriminate].
  destruct (np_index (im_width img) u) as [k|]; [|discriminate].
  intros Heq. injection Heq as <-. unfold im_height, well_formed. simpl.
  rewrite length_alter. split; [reflexivity|]. split; [reflexivity|].
  intros Hwf. apply Forall_alter; [exact Hwf|].
  intros row _ Hrow. rewrite length_insert. exact Hrow.
Qed.

Lemma np_scatter_shape ws : forall img img',
  np_scatter img ws = Ok img' ->
  im_height img' = im_height img /\ im_width img' = im_width img
  /\ (well_formed img -> well_formed img').
Proof.
  induction ws as [|[[u v] c] ws IH]; intros img img' Hs.
  - injection Hs as <-. auto.
  - simpl in Hs. destruct (np_setitem img v u c) as [img1|e] eqn:E; [|discriminate].
    destruct (np_setitem_shape _ _ _ _ _ E) as (H1 & H2 & H3).
    destruct (IH _ _ Hs) as (H4 & H5 & H6).
    split; [congruence|]. split; [congruence | auto].
Qed.

Lemma keeps_shape_scatter l (ws : image -> list (Z * Z * color)) :
  keeps_shape l (modify_res l (fun raster => np_scatter raster (ws raster))).
Proof.
  intros h im Hl. unfold modify_res.
  rewrite (bind_Ok _ _ h h im) by (apply load_Some, Hl).
  unfold bind, lift, store.
  destruct (np_scatter im (ws im)) as [im'|e] eqn:E.
  - exists im'. split; [reflexivity|]. eapply np_scatter_shape, E.
  - exists im. split; [symmetry; apply list_insert_id, Hl | auto].
Qed.

Ltac shape_step :=
  first
    [ apply keeps_shape_cv2; reflexivity
    | apply keeps_shape_for_enum_from; intros ? ?
    | apply keeps_shape_bind; [|intros ?]
    | apply keeps_shape_ret | apply keeps_shape_raise | apply keeps_shape_lift
    | apply keeps_shape_py_get | apply keeps_shape_assert | apply keeps_shape_load ].

(** ** The 2D box renderer *)

Section Bbox2dMore.
Context `{cv : Cv2}.

Lemma outline_boxes_all_red img bboxes2d :
  cv2_polylines img (map box_polygon bboxes2d) true COLOR_RED 2
  = outline_boxes img bboxes2d (replicate (length bboxes2d) COLOR_RED).
Proof.
  unfold cv2_polylines, outline_boxes. revert img.
  induction bboxes2d as [|b bs IH]; intros img; [reflexivity|].
  simpl. apply IH.
Qed.

Lemma outline_boxes_app img bs1 cs1 bs2 cs2 :
  length cs1 = length bs1 ->
  outline_boxes (outline_boxes img bs1 cs1) bs2 cs2
  = outline_boxes img (bs1 ++ bs2) (cs1 ++ cs2).
Proof.
  intros Hlen. unfold outline_boxes.
  rewrite zip_with_app by (symmetry; exact Hlen).
  rewrite fold_left_app. reflexivity.
Qed.

(** The color phase alone, on a valid handle. *)
Lemma color_phase_run img bboxes2d colors im (h : list image) :
  h !! img = Some im ->
  match colors with Some cs => length cs = length bboxes2d | None => True end ->
  match colors with
  | Some colors0 =>
      assert (length (map box_polygon bboxes2d) =? length colors0)%nat
             "len(boxes) != len(colors)" >>
      for_enum (map box_polygon bboxes2d)
        (fun idx box => let! c := py_get colors0 idx in
                        cv2 img (Polylines [box] true c 2))
  | None => cv2 img (Polylines (map box_polygon bboxes2d) true COLOR_RED 2)
  end h
  = (Ok tt,
     <[img := outline_boxes im bboxes2d
                (default (replicate (length bboxes2d) COLOR_RED) colors)]> h).
Proof.
  intros Him Hc. destruct colors as [cs|]; simpl default.
  - assert (E1 : (length (map box_polygon bboxes2d) =? length cs)%nat = true)
      by (apply Nat.eqb_eq; rewrite length_map; congruence).
    rewrite E1. erewrite bind_Ok by apply assert_true.
    apply (color_loop_zip _ _ _ _ _ Him Hc).
  - unfold cv2. rewrite (modify_Some _ _ _ _ Him). simpl cv2_draw.
    rewrite outline_boxes_all_red. reflexivity.
Qed.

(** A texts list of the wrong length: the boxes are drawn, then the
    assertion is raised. *)
Lemma render_bbox2d_texts_mismatch_run img bboxes2d colors texts im (h : list image) :
  h !! img = Some im ->
  match colors with Some cs => length cs = length bboxes2d | None => True end ->
  texts <> [] ->
  length texts <> length bboxes2d ->
  render_bbox2d_on_image img bboxes2d colors (Some texts) h
  = (Raise (AssertionError "len(boxes) != len(texts)"),
     <[img := outline_boxes im bboxes2d
                (default (replicate (length bboxes2d) COLOR_RED) colors)]> h).
Proof.
  intros Him Hc Hne Hlen.
  assert (E : (length (map box_polygon bboxes2d) =? length texts)%nat = false)
    by (apply Nat.eqb_neq; rewrite length_map; congruence).
  destruct texts as [|t texts]; [congruence|].
  unfold render_bbox2d_on_image.
  change (truthy (Some (t :: texts))) with true. cbv iota.
  change (default [] (Some (t :: texts))) with (t :: texts).
  rewrite E.
  erewrite bind_Ok by (apply (color_phase_run _ _ _ _ _ Him Hc)).
  erewrite bind_Raise; [reflexivity|].
  erewrite bind_Raise; [reflexivity|]. apply assert_false.
Qed.

Lemma render_bbox2d_no_texts_run img bboxes2d colors texts im (h : list image) :
  h !! img = Some im ->
  match colors with Some cs => length cs = length bboxes2d | None => True end ->
  truthy texts = false ->
  render_bbox2d_on_image img bboxes2d colors texts h
  = (Ok img,
     <[img := outline_boxes im bboxes2d
                (default (replicate (length bboxes2d) COLOR_RED) colors)]> h).
Proof.
  intros Him Hc Ht. unfold render_bbox2d_on_image. rewrite Ht.
  erewrite bind_Ok by (apply (color_phase_run _ _ _ _ _ Him Hc)).
  reflexivity.
Qed.

Lemma box_writes_stroke bboxes2d colors p :
  p ∈ map fst (box_writes bboxes2d colors) ->
  exists b, b ∈ bboxes2d /\ p ∈ poly_px (box_polygon b) true 2.
Proof.
  unfold box_writes. revert colors.
  induction bboxes2d as [|b bs IH]; intros [|c cs] Hp; simpl in Hp;
    try (inversion Hp; fail).
  rewrite map_app, map_map in Hp. simpl in Hp. rewrite map_id in Hp.
  apply elem_of_app in Hp as [Hp|Hp].
  - exists b. split; [left | exact Hp].
  - destruct (IH cs Hp) as [b' [Hb' Hp']]. exists b'. split; [right; exact Hb' | exact Hp'].
Qed.

Lemma render_bbox2d_keeps_shape img bboxes2d colors texts :
  truthy texts = false ->
  keeps_shape img (render_bbox2d_on_image img bboxes2d colors texts).
Proof.
  intros Ht. unfold render_bbox2d_on_image, for_enum. rewrite Ht.
  apply keeps_shape_bind; [|intros _; apply keeps_shape_bind;
                             [apply keeps_shape_ret | intros _; apply keeps_shape_ret]].
  destruct colors as [cs|]; repeat shape_step.
Qed.

End Bbox2dMore.

(** X1.  Leaving [colors] out is the same as passing red for every box:
    on a raster [img], [render_bbox2d_on_image] with [colors=None] returns
    and leaves exactly what it does with a list of [N] reds, whatever the
    texts. *)
Theorem render_bbox2d_default_is_all_red `{cv : Cv2} img (bboxes2d : list bbox2d)
    texts im (h : list image) :
  h !! img = Some im ->
  render_bbox2d_on_image img bboxes2d None texts h
  = render_bbox2d_on_image img bboxes2d
      (Some (replicate (length bboxes2d) COLOR_RED)) texts h.
Proof.
  intros Him. unfold render_bbox2d_on_image.
  pose proof (color_phase_run img bboxes2d None im h Him I) as H1.
  pose proof (color_phase_run img bboxes2d
                (Some (replicate (length bboxes2d) COLOR_RED)) im h Him
                (length_replicate _ _)) as H2.
  simpl default in H1, H2.
  rewrite (bind_Ok _ _ _ _ _ H1), (bind_Ok _ _ _ _ _ H2). reflexivity.
Qed.




(** X5.  With no boxes nothing is drawn: the call returns its handle and
    the heap is unchanged when [colors] is absent or empty, and a
    non-empty [colors] list fails the length check. *)
Theorem render_bbox2d_no_boxes `{cv : Cv2} img texts im (h : list image) :
  h !! img = Some im ->
  truthy texts = false ->
  render_bbox2d_on_image img [] None texts h = (Ok img, h)
  /\ render_bbox2d_on_image img [] (Some []) texts h = (Ok img, h)
  /\ (forall c cs,
        render_bbox2d_on_image img [] (Some (c :: cs)) texts h
        = (Raise (AssertionError "len(boxes) != len(colors)"), h)).
Proof.
  intros Him Ht. split; [|split].
  - rewrite (render_bbox2d_no_texts_run _ [] None _ _ _ Him I Ht).
    simpl. unfold outline_boxes. simpl. rewrite (heap_insert_id _ _ _ Him). reflexivity.
  - rewrite (render_bbox2d_no_texts_run _ [] (Some []) _ _ _ Him eq_refl Ht).
    simpl. unfold outline_boxes. simpl. rewrite (heap_insert_id _ _ _ Him). reflexivity.
  - intros c cs. apply render_bbox2d_colors_mismatch. simpl. lia.
Qed.

(** ** The canvas and its point clouds *)

Lemma paint_app img pts1 pts2 c :
  paint img (pts1 ++ pts2) c = paint (paint img pts1 c) pts2 c.
Proof. unfold paint. apply fold_left_app. Qed.

(** Painting one color: order and repetition of the pixels do not matter. *)
Lemma paint_Permutation pts pts' c :
  Permutation pts pts' -> forall img, paint img pts c = paint img pts' c.
Proof.
  induction 1 as [|p l l' _ IH|p q l|l l' l'' _ IH1 _ IH2]; intros img.
  - reflexivity.
  - change (paint (set_px img p c) l c = paint (set_px img p c) l' c). apply IH.
  - change (paint (set_px (set_px img q c) p c) l c
            = paint (set_px (set_px img p c) q c) l c).
    destruct (decide (q = p)) as [->|Hne]; [reflexivity|].
    rewrite (set_px_commute _ _ _ _ _ Hne). reflexivity.
  - rewrite IH1. apply IH2.
Qed.

Lemma paint_twice img pts c : paint (paint img pts c) pts c = paint img pts c.
Proof.
  rewrite <- paint_app, !paint_apply_writes, map_app.
  apply dead_writes. auto.
Qed.

Lemma bev_retained_app p1 p2 H W :
  bev_retained (p1 ++ p2) H W = bev_retained p1 H W ++ bev_retained p2 H W.
Proof. rewrite !bev_retained_filter, filter_app, map_app. reflexivity. Qed.

Lemma bev_retained_Permutation p1 p2 H W :
  Permutation p1 p2 -> Permutation (bev_retained p1 H W) (bev_retained p2 H W).
Proof.
  intros Hp. rewrite !bev_retained_filter.
  apply Permutation_map. apply filter_Permutation. exact Hp.
Qed.

Lemma bev_project_invalid_axis self pts :
  np_index 3 (_xaxis self) = None \/ np_index 3 (_yaxis self) = None ->
  bev_project self pts = Raise IndexError.
Proof.
  unfold bev_project, np_column. intros [Hx|Hy].
  - rewrite Hx. reflexivity.
  - rewrite Hy. destruct (np_index 3 (_xaxis self)); reflexivity.
Qed.

Lemma np_index_None n i :
  i < - Z.of_nat n \/ Z.of_nat n <= i -> np_index n i = None.
Proof.
  intros Hi. unfold np_index.
  destruct ((0 <=? i) && (i <? Z.of_nat n)) eqn:E1.
  { apply andb_true_iff in E1 as [H1 H2]. lia. }
  destruct ((- Z.of_nat n <=? i) && (i <? 0)) eqn:E2; [|reflexivity].
  apply andb_true_iff in E2 as [H1 H2]. lia.
Qed.

Section CanvasFacts.
Context `{cv : Cv2}.

Lemma render_point_cloud_keeps_shape self point_cloud :
  keeps_shape (data self) (render_point_cloud self point_cloud).
Proof.
  unfold render_point_cloud.
  apply keeps_shape_bind; [apply keeps_shape_lift|]. intros pc2d.
  apply keeps_shape_bind; [apply keeps_shape_load|]. intros im.
  unfold shape.
  apply (keeps_shape_scatter (data self)
           (fun _ => map (fun p => (p, (128, 128, 128)))
                         (bev_retained pc2d (Z.of_nat (im_height im))
                                       (Z.of_nat (im_width im))))).
Qed.

Lemma render_bounding_box_3d_keeps_shape self bboxes3d color texts :
  truthy texts = false ->
  keeps_shape (data self) (render_bounding_box_3d self bboxes3d color texts).
Proof.
  intros Ht. unfold render_bounding_box_3d, for_enum.
  apply keeps_shape_for_enum_from. intros bidx bbox.
  unfold render_one_box_3d. rewrite Ht.
  repeat shape_step.
Qed.

(** Closed form of a call with valid axes. *)
Lemma render_point_cloud_valid self point_cloud kx ky raster (h : list image) :
  np_index 3 (_xaxis self) = Some kx ->
  np_index 3 (_yaxis self) = Some ky ->
  h !! data self = Some raster ->
  render_point_cloud self point_cloud h
  = (Ok tt,
     <[data self :=
         paint raster
           (bev_retained
              (map (fun p => bev_pixel self (coord p kx, coord p ky)) point_cloud)
              (Z.of_nat (im_height raster)) (Z.of_nat (im_width raster)))
           (128, 128, 128)]> h).
Proof.
  intros Hx Hy Hd.
  apply (render_point_cloud_run self point_cloud _ raster h
           (bev_project_pixels self point_cloud kx ky Hx Hy) Hd).
Qed.

End CanvasFacts.

(** X6.  The canvas is never resized: whatever the point cloud and
    whatever the outcome, [render_point_cloud] leaves a raster of the same
    shape behind the canvas handle (well formed if it was), changes no
    other raster and allocates none. *)
Theorem render_point_cloud_same_shape `{cv : Cv2} (self : BEVImage)
    (point_cloud : list point3) raster (h : list image) :
  h !! data self = Some raster ->
  exists raster',
    snd (render_point_cloud self point_cloud h) = <[data self := raster']> h
    /\ shape raster' = shape raster
    /\ (well_formed raster -> well_formed raster').
Proof.
  intros Hd.
  destruct (render_point_cloud_keeps_shape self point_cloud h raster Hd)
    as [raster' (H1 & H2 & H3 & H4)].
  exists raster'. split; [exact H1|]. split; [unfold shape; congruence | exact H4].
Qed.

(** X7.  Point clouds accumulate: rendering [pc1] and then [pc2] on the
    same canvas leaves the heap as rendering [pc1 ++ pc2] in one call. *)
Theorem render_point_cloud_accumulates `{cv : Cv2} (self : BEVImage)
    (pc1 pc2 : list point3) kx ky raster (h : list image) :
  np_index 3 (_xaxis self) = Some kx ->
  np_index 3 (_yaxis self) = Some ky ->
  h !! data self = Some raster ->
  let '(r1, h1) := render_point_cloud self pc1 h in
  r1 = Ok tt
  /\ render_point_cloud self pc2 h1 = render_point_cloud self (pc1 ++ pc2) h.
Proof.
  intros Hx Hy Hd.
  rewrite (render_point_cloud_valid self pc1 kx ky raster h Hx Hy Hd).
  split; [reflexivity|].
  rewrite (render_point_cloud_valid self pc2 kx ky _ _ Hx Hy
             (heap_insert_lookup _ _ _ _ Hd)).
  rewrite (render_point_cloud_valid self (pc1 ++ pc2) kx ky raster h Hx Hy Hd).
  rewrite list_insert_insert_eq, paint_height, paint_width.
  rewrite map_app, bev_retained_app, paint_app. reflexivity.
Qed.

(** X8.  Rendering the same point cloud a second time changes nothing. *)
Theorem render_point_cloud_idempotent `{cv : Cv2} (self : BEVImage)
    (point_cloud : list point3) kx ky raster (h : list image) :
  np_index 3 (_xaxis self) = Some kx ->
  np_index 3 (_yaxis self) = Some ky ->
  h !! data self = Some raster ->
  render_point_cloud self point_cloud (snd (render_point_cloud self point_cloud h))
  = render_point_cloud self point_cloud h.
Proof.
  intros Hx Hy Hd.
  rewrite (render_point_cloud_valid self point_cloud kx ky raster h Hx Hy Hd).
  simpl snd.
  rewrite (render_point_cloud_valid self point_cloud kx ky _ _ Hx Hy
             (heap_insert_lookup _ _ _ _ Hd)).
  rewrite list_insert_insert_eq, paint_height, paint_width, paint_twice.
  reflexivity.
Qed.

(** X9.  The order of the points does not matter: two point clouds that
    are permutations of each other leave the same canvas. *)
Theorem render_point_cloud_order `{cv : Cv2} (self : BEVImage)
    (pc pc' : list point3) (h : list image) :
  Permutation pc pc' ->
  render_point_cloud self pc h = render_point_cloud self pc' h.
Proof.
  intros Hperm. unfold render_point_cloud.
  destruct (np_index 3 (_xaxis self)) as [kx|] eqn:Hx;
    [|rewrite !bev_project_invalid_axis by (left; exact Hx); reflexivity].
  destruct (np_index 3 (_yaxis self)) as [ky|] eqn:Hy;
    [|rewrite !bev_project_invalid_axis by (right; exact Hy); reflexivity].
  rewrite !(bev_project_pixels self _ kx ky Hx Hy).
  unfold lift, bind at 1 3.
  unfold load, bind at 1 2. destruct (h !! data self) as [raster|] eqn:Hd; [|reflexivity].
  unfold shape, modify_res.
  set (k := bev_retained (map _ pc) _ _).
  set (k' := bev_retained (map _ pc') _ _).
  assert (Hk : Permutation k k').
  { apply bev_retained_Permutation, Permutation_map, Hperm. }
  assert (Hon : forall l, Permutation k l ->
            np_scatter raster (map (fun p => (p, (128, 128, 128))) l)
            = Ok (paint raster l (128, 128, 128))).
  { intros l Hl. rewrite np_scatter_on_raster, apply_writes_paint; [reflexivity|].
    intros w Hw. apply list_elem_of_In, in_map_iff in Hw as [p [<- Hp]].
    apply (Permutation_in _ (Permutation_sym Hl)) in Hp.
    apply list_elem_of_In, bev_retained_on_raster in Hp. exact Hp. }
  unfold lift, bind, store.
  rewrite !(load_Some _ _ _ Hd).
  rewrite (Hon k (Permutation_refl _)), (Hon k' Hk).
  rewrite (paint_Permutation _ _ _ Hk). reflexivity.
Qed.


(** X11.  The axes are checked for equality only.  An axis index outside
    [-3, 3) makes [render_point_cloud] raise [IndexError] on every cloud,
    the empty one included, and [render_bounding_box_3d] on every non-empty
    list of boxes; nothing has been drawn when they raise. *)
Theorem bev_axis_out_of_range `{cv : Cv2} (self : BEVImage) (h : list image) :
  (_xaxis self < -3 \/ 3 <= _xaxis self) \/ (_yaxis self < -3 \/ 3 <= _yaxis self) ->
  (forall point_cloud,
     render_point_cloud self point_cloud h = (Raise IndexError, h))
  /\ (forall bbox bboxes3d color texts,
        render_bounding_box_3d self (bbox :: bboxes3d) color texts h
        = (Raise IndexError, h)).
Proof.
  intros Hax.
  assert (Hnone : np_index 3 (_xaxis self) = None \/ np_index 3 (_yaxis self) = None).
  { destruct Hax as [Hax|Hax]; [left | right]; apply np_index_None; simpl; lia. }
  split.
  - intros pc. unfold render_point_cloud.
    erewrite bind_Raise; [reflexivity|].
    unfold lift. rewrite (bev_project_invalid_axis _ _ Hnone). reflexivity.
  - intros bbox bboxes3d color texts.
    unfold render_bounding_box_3d, for_enum. cbn [for_enum_from].
    erewrite bind_Raise; [reflexivity|].
    unfold render_one_box_3d. erewrite bind_Raise; [reflexivity|].
    unfold lift. rewrite (bev_project_invalid_axis _ _ Hnone). reflexivity.
Qed.

(** ** Construction of the canvas *)

Lemma Qtrunc_comp q q' : (q == q')%Q -> Qtrunc q = Qtrunc q'.
Proof.
  unfold Qeq, Qtrunc. intros H.
  rewrite <- (Z.quot_mul_cancel_r (Qnum q) (Z.pos (Qden q)) (Z.pos (Qden q')))
    by lia.
  rewrite H.
  rewrite (Z.mul_comm (Z.pos (Qden q)) (Z.pos (Qden q'))).
  apply Z.quot_mul_cancel_r; lia.
Qed.

Lemma Qtrunc_inject_Z n : Qtrunc (inject_Z n) = n.
Proof. unfold Qtrunc. simpl. apply Z.quot_1_r. Qed.

Lemma half_on_raster n : 0 < n -> 0 <= n / 2 < n.
Proof.
  intros Hn. split; [apply Z.div_pos; lia | apply Z.div_lt_upper_bound; lia].
Qed.

Section InitFacts.
Context `{cv : Cv2}.

Lemma fold_draw_shape (cmds : list draw_cmd) : forall img,
  forallb is_shape_cmd cmds = true ->
  im_height (fold_left (fun im cmd => cv2_draw cmd im) cmds img) = im_height img
  /\ im_width (fold_left (fun im cmd => cv2_draw cmd im) cmds img) = im_width img
  /\ (well_formed img ->
      well_formed (fold_left (fun im cmd => cv2_draw cmd im) cmds img)).
Proof.
  induction cmds as [|cmd cmds IH]; intros img Hall; [auto|].
  simpl in Hall. apply andb_true_iff in Hall as [Hc Hall].
  cbn [fold_left].
  destruct (cv2_draw_shape cmd img Hc) as (H1 & H2 & H3).
  destruct (IH (cv2_draw cmd img) Hall) as (H4 & H5 & H6).
  split; [congruence|]. split; [congruence | auto].
Qed.

(** Closed form of the constructor on acceptable arguments. *)
Lemma BEVImage_init_run (metric_width metric_height pixels_per_meter : Q)
    (polar_step_size_meters xaxis yaxis : Z) (h : list image) :
  xaxis <> yaxis ->
  polar_step_size_meters <> 0 ->
  0 <= Qtrunc (metric_width * pixels_per_meter) ->
  0 <= Qtrunc (metric_height * pixels_per_meter) ->
  let width_px := Qtrunc (metric_width * pixels_per_meter) in
  let height_px := Qtrunc (metric_height * pixels_per_meter) in
  let rings :=
    map (fun i => Circle (width_px / 2, height_px / 2)
                    (Qtrunc (inject_Z (i * polar_step_size_meters) * pixels_per_meter))
                    (50, 50, 50) 1)
        (range_from 1 (Qtrunc (py_max metric_width metric_height)
                       / polar_step_size_meters)) in
  BEVImage_init metric_width metric_height pixels_per_meter
                polar_step_size_meters xaxis yaxis h
  = (Ok {| _metric_width := metric_width;
           _metric_height := metric_height;
           _pixels_per_meter := pixels_per_meter;
           _xaxis := xaxis;
           _yaxis := yaxis;
           _center_pixel := (width_px / 2, height_px / 2);
           data := length h |},
     h ++ [fold_left (fun im cmd => cv2_draw cmd im) rings
                     (zeros (Z.to_nat height_px) (Z.to_nat width_px))]).
Proof.
  intros Hne Hstep Hw Hh width_px height_px rings.
  set (z := zeros (Z.to_nat height_px) (Z.to_nat width_px)).
  unfold BEVImage_init.
  assert (E : negb (xaxis =? yaxis) = true) by (apply negb_true_iff, Z.eqb_neq, Hne).
  rewrite E. rewrite (bind_Ok _ _ h h tt) by reflexivity.
  fold width_px height_px.
  assert (E2 : (0 <=? height_px) && (0 <=? width_px) = true)
    by (apply andb_true_iff; split; apply Z.leb_le; assumption).
  rewrite E2. fold z.
  rewrite (bind_Ok _ _ h (h ++ [z]) (length h)) by reflexivity.
  assert (E3 : (polar_step_size_meters =? 0) = false) by (apply Z.eqb_neq, Hstep).
  rewrite E3.
  rewrite (bind_Ok _ _ (h ++ [z]) (h ++ [z])
             (Qtrunc (py_max metric_width metric_height) / polar_step_size_meters))
    by reflexivity.
  assert (Hl : (h ++ [z]) !! length h = Some z).
  { rewrite lookup_app_r by lia. rewrite Nat.sub_diag. reflexivity. }
  erewrite bind_Ok; [|apply (for_each_draw (length h) _ _ z (h ++ [z]) Hl)].
  unfold ret. f_equal.
  rewrite insert_app_r_alt by lia. rewrite Nat.sub_diag. simpl. f_equal. f_equal.
  unfold rings. generalize z.
  generalize (range_from 1 (Qtrunc (py_max metric_width metric_height)
                            / polar_step_size_meters)).
  intros l. induction l as [|i l IH]; intros z0; [reflexivity|].
  simpl. apply IH.
Qed.

End InitFacts.



(** ** The 3D box renderer *)

Section Box3dMore.
Context `{cv : Cv2}.

(** A box whose label is missing: its marks and edges are drawn, then the
    lookup of the label raises. *)
Lemma render_one_box_3d_no_label self colors texts bidx bbox kx ky col0 col2 col3
    raster (h : list image) :
  np_index 3 (_xaxis self) = Some kx ->
  np_index 3 (_yaxis self) = Some ky ->
  colors !! 0%nat = Some col0 -> colors !! 2%nat = Some col2 ->
  colors !! 3%nat = Some col3 ->
  truthy texts = true ->
  default [] texts !! bidx = None ->
  h !! data self = Some raster ->
  fst (render_one_box_3d self colors texts bidx bbox h) = Raise IndexError.
Proof.
  intros Hx Hy H0 H2 H3 Ht Hnone Hd.
  unfold render_one_box_3d.
  rewrite (bind_Ok _ _ h h
             (map (fun p => bev_pixel self (coord p kx, coord p ky))
                  (vec_to_list (corners bbox))))
    by (unfold lift; rewrite (bev_project_pixels _ _ _ _ Hx Hy); reflexivity).
  rewrite map_map.
  pose proof (lookup_corner
                (fun p => trunc2 (bev_pixel self (coord p kx, coord p ky)))
                (corners bbox)) as Hc.
  rewrite (bind_cv2 _ _ _ _ _ Hd).
  rewrite (bind_py_get _ _ _ _ _ (Hc 0%fin)).
  rewrite (bind_py_get _ _ _ _ _ (Hc 1%fin)).
  rewrite (bind_cv2 _ _ _ _ _ (heap_insert_lookup _ _ _ _ Hd)), list_insert_insert_eq.
  rewrite (bind_py_get _ _ _ _ _ H0).
  rewrite (bind_cv2 _ _ _ _ _ (heap_insert_lookup _ _ _ _ Hd)), list_insert_insert_eq.
  rewrite (bind_py_get _ _ _ _ _ (Hc 3%fin)).
  rewrite (bind_py_get _ _ _ _ _ (Hc 4%fin)).
  rewrite (bind_py_get _ _ _ _ _ H3).
  rewrite (bind_cv2 _ _ _ _ _ (heap_insert_lookup _ _ _ _ Hd)), list_insert_insert_eq.
  rewrite (bind_py_get _ _ _ _ _ (Hc 5%fin)).
  rewrite (bind_cv2 _ _ _ _ _ (heap_insert_lookup _ _ _ _ Hd)), list_insert_insert_eq.
  rewrite (bind_py_get _ _ _ _ _ H2).
  rewrite (bind_cv2 _ _ _ _ _ (heap_insert_lookup _ _ _ _ Hd)), list_insert_insert_eq.
  rewrite Ht. unfold bind, py_get. rewrite Hnone. reflexivity.
Qed.

Lemma box_loop_short_texts self colors texts kx ky col0 col2 col3 bboxes3d :
  np_index 3 (_xaxis self) = Some kx ->
  np_index 3 (_yaxis self) = Some ky ->
  colors !! 0%nat = Some col0 -> colors !! 2%nat = Some col2 ->
  colors !! 3%nat = Some col3 ->
  truthy texts = true ->
  forall k raster (h : list image),
    h !! data self = Some raster ->
    (k <= length (default [] texts) < k + length bboxes3d)%nat ->
    fst (for_enum_from k bboxes3d (render_one_box_3d self colors texts) h)
    = Raise IndexError.
Proof.
  intros Hx Hy H0 H2 H3 Ht.
  induction bboxes3d as [|b bs IH]; intros k raster h Hd Hlen; [simpl in Hlen; lia|].
  cbn [for_enum_from].
  destruct (default [] texts !! k) as [t|] eqn:Hk.
  - pose proof (render_one_box_3d_run self colors texts k b kx ky col0 col2 col3
                  raster h Hx Hy H0 H2 H3 ltac:(intros _; eexists; exact Hk) Hd) as Hrun.
    cbv zeta in Hrun. rewrite (bind_Ok _ _ _ _ _ Hrun).
    eapply IH; [eapply heap_insert_lookup, Hd|].
    apply lookup_lt_Some in Hk. simpl in Hlen. lia.
  - unfold bind at 1.
    pose proof (render_one_box_3d_no_label self colors texts k b kx ky col0 col2 col3
                  raster h Hx Hy H0 H2 H3 Ht Hk Hd) as Hfail.
    destruct (render_one_box_3d self colors texts k b h) as [r h'].
    simpl in Hfail. subst r. reflexivity.
Qed.

End Box3dMore.


(** X15.  Without labels the 3D box renderer never resizes the canvas:
    whatever the boxes and whatever the outcome, the raster behind the
    canvas handle keeps its shape (and stays well formed), no other raster
    changes and none is allocated. *)
Theorem render_bounding_box_3d_same_shape `{cv : Cv2} (self : BEVImage)
    (bboxes3d : list BoundingBox3D) (color : option color) raster (h : list image) :
  h !! data self = Some raster ->
  exists raster',
    snd (render_bounding_box_3d self bboxes3d color None h) = <[data self := raster']> h
    /\ shape raster' = shape raster
    /\ (well_formed raster -> well_formed raster').
Proof.
  intros Hd.
  destruct (render_bounding_box_3d_keeps_shape self bboxes3d color None eq_refl h raster Hd)
    as [raster' (H1 & H2 & H3 & H4)].
  exists raster'. split; [exact H1|]. split; [unfold shape; congruence | exact H4].
Qed.

(** ** The point-cloud-on-image renderer *)

Lemma px_max_upper p q : px_le p (px_max p q) /\ px_le q (px_max p q).
Proof.
  destruct p as [[r1 g1] b1], q as [[r2 g2] b2]. unfold px_le, px_max.
  repeat split; lia.
Qed.

Lemma px_at_np_maximum a b u v :
  px_at (np_maximum a b) u v
  = match px_at a u v, px_at b u v with
    | Some x, Some y => Some (px_max x y)
    | _, _ => None
    end.
Proof.
  unfold px_at, np_maximum. simpl.
  destruct ((0 <=? u) && (0 <=? v)); [|reflexivity].
  rewrite lookup_zip_with.
  destruct (im_rows a !! Z.to_nat v) as [ra|]; simpl; [|reflexivity].
  destruct (im_rows b !! Z.to_nat v) as [rb|]; simpl.
  - rewrite lookup_zip_with.
    destruct (ra !! Z.to_nat u); simpl; [|reflexivity].
    destruct (rb !! Z.to_nat u); reflexivity.
  - destruct (ra !! Z.to_nat u); reflexivity.
Qed.



(** ** The mosaic grid *)

Lemma ceil_div_upper N g : 0 < g -> g * ceil_div N g < N + g.
Proof.
  intros Hg. unfold ceil_div.
  pose proof (Z.div_mod (- N) g ltac:(lia)) as Hdm.
  pose proof (Z.mod_pos_bound (- N) g Hg) as Hr.
  nia.
Qed.

Section MosaicMore.
Context `{cv : Cv2}.

Lemma fold_mosaic_tile_Raise items N target e (js : list Z) :
  fold_left (mosaic_tile items N target) js (Raise e) = Raise e.
Proof. induction js as [|j js IH]; [reflexivity | exact IH]. Qed.

(** The padded tiles when the images need not share a shape: the target
    size comes from the first image. *)
Lemma mosaic_items_run_first (items : list image) first rest scale pad g gh H W :
  items = first :: rest ->
  shape first = (H, W) ->
  Forall (fun it => im_height it <> 0%nat /\ im_width it <> 0%nat) items ->
  0 < Qtrunc (inject_Z W * scale) -> 0 < Qtrunc (inject_Z H * scale) -> 0 <= pad ->
  mosaic_items items scale pad g gh
  = Ok (map (fun j =>
               add_border
                 match items !! j with
                 | Some it => resize it (Z.to_nat (Qtrunc (inject_Z W * scale)))
                                        (Z.to_nat (Qtrunc (inject_Z H * scale)))
                 | None => zeros (Z.to_nat (Qtrunc (inject_Z H * scale)))
                                 (Z.to_nat (Qtrunc (inject_Z W * scale)))
                 end
                 (Z.to_nat pad) (Z.to_nat pad) (Z.to_nat pad) (Z.to_nat pad))
            (seq 0 (Z.to_nat (g * gh)))).
Proof.
  intros Hitems Hs Hall Htw Hth Hp. unfold mosaic_items.
  assert (Hfirst : get_res items 0 = Ok first) by (rewrite Hitems; reflexivity).
  rewrite Hfirst. cbn [rbind]. cbv zeta. rewrite Hs. cbn [fst snd].
  unfold range. rewrite mosaic_tiles_run; try assumption.
  - cbn [rbind]. rewrite (map_res_Ok _ (fun im => add_border im (Z.to_nat pad) (Z.to_nat pad)
                                          (Z.to_nat pad) (Z.to_nat pad))).
    + rewrite map_map. reflexivity.
    + intros x _. apply copyMakeBorder_pad, Hp.
  - rewrite Hitems. discriminate.
Qed.

Lemma cell_dims (items : list image) tw th pad j :
  let cell :=
    add_border
      match items !! j with
      | Some it => resize it tw th
      | None => zeros th tw
      end pad pad pad pad in
  im_height cell = (th + 2 * pad)%nat /\ im_width cell = (tw + 2 * pad)%nat.
Proof.
  intros cell. unfold cell.
  destruct (add_border_dims
              match items !! j with
              | Some it => resize it tw th
              | None => zeros th tw
              end pad pad pad pad) as [H1 H2].
  rewrite H1, H2. destruct (items !! j).
  - rewrite resize_height, resize_width. lia.
  - unfold zeros, im_height. simpl. rewrite length_replicate. lia.
Qed.

End MosaicMore.

(** X18.  The grid of the mosaic always holds every image and never has a
    row of filler cells only: with [g] the grid width in force and
    [grid_height = ceil(N / g)], [N <= g * grid_height < N + g].  With the
    default width [ceil(sqrt(N))] (also taken when 0 is passed) the grid
    has at most as many rows as columns. *)
Theorem mosaic_grid_covers (N : Z) (grid_width : option Z) :
  0 < N ->
  match grid_width with Some g0 => 0 <= g0 | None => True end ->
  let g := mosaic_grid_width N grid_width in
  let grid_height := ceil_div N g in
  0 < g /\ 0 < grid_height
  /\ N <= g * grid_height < N + g
  /\ (grid_width = None \/ grid_width = Some 0 ->
      (g - 1) * (g - 1) < N <= g * g /\ grid_height <= g).
Proof.
  intros HN Hgw g grid_height.
  assert (Hsq : 0 < Z.sqrt_up N) by (apply Z.sqrt_up_pos, HN).
  assert (Hg : 0 < g).
  { unfold g, mosaic_grid_width. destruct grid_width as [g0|]; [|exact Hsq].
    destruct (g0 =? 0) eqn:E; [exact Hsq|]. apply Z.eqb_neq in E. lia. }
  destruct (ceil_div_pos N g HN Hg) as [Hgh Hcover]. fold grid_height in Hgh, Hcover.
  pose proof (ceil_div_upper N g Hg) as Hup. fold grid_height in Hup.
  split; [exact Hg|]. split; [exact Hgh|]. split; [lia|].
  intros Hdefault.
  assert (Hgs : g = Z.sqrt_up N).
  { unfold g, mosaic_grid_width. destruct Hdefault as [-> | ->]; reflexivity. }
  pose proof (Z.sqrt_up_spec N HN) as Hspec. rewrite <- Hgs in Hspec.
  unfold Z.pred in Hspec. replace (g + -1) with (g - 1) in Hspec by lia.
  split; [lia|]. nia.
Qed.



(** ** The layout of the mosaic *)

Lemma px_at_nat img (u v : nat) :
  px_at img (Z.of_nat u) (Z.of_nat v) = im_rows img !! v ≫= fun r => r !! u.
Proof.
  unfold px_at.
  replace (0 <=? Z.of_nat u) with true by (symmetry; apply Z.leb_le; lia).
  replace (0 <=? Z.of_nat v) with true by (symmetry; apply Z.leb_le; lia).
  simpl. rewrite !Nat2Z.id. reflexivity.
Qed.

Lemma hstack2_well_formed a b :
  well_formed a -> well_formed b -> well_formed (hstack2 a b).
Proof.
  unfold well_formed, hstack2. simpl. intros Ha Hb.
  apply Forall_forall. intros r Hr.
  apply list_elem_of_lookup in Hr as [i Hi].
  rewrite lookup_zip_with in Hi.
  destruct (im_rows a !! i) as [ra|] eqn:Ea; [|discriminate]. simpl in Hi.
  destruct (im_rows b !! i) as [rb|] eqn:Eb; [|discriminate]. simpl in Hi.
  injection Hi as <-. rewrite length_app.
  rewrite Forall_forall in Ha, Hb.
  rewrite (Ha ra) by (eapply list_elem_of_lookup_2, Ea).
  rewrite (Hb rb) by (eapply list_elem_of_lookup_2, Eb). reflexivity.
Qed.

Lemma px_hstack2_l a b (u v : nat) :
  well_formed a -> im_height b = im_height a -> (u < im_width a)%nat ->
  px_at (hstack2 a b) (Z.of_nat u) (Z.of_nat v) = px_at a (Z.of_nat u) (Z.of_nat v).
Proof.
  intros Hwf Hh Hu. rewrite !px_at_nat. unfold hstack2. simpl.
  rewrite lookup_zip_with.
  destruct (im_rows a !! v) as [ra|] eqn:Ea; [|reflexivity]. simpl.
  destruct (im_rows b !! v) as [rb|] eqn:Eb; simpl.
  - apply lookup_app_l. unfold well_formed in Hwf. rewrite Forall_forall in Hwf.
    rewrite (Hwf ra) by (eapply list_elem_of_lookup_2, Ea). exact Hu.
  - apply lookup_lt_Some in Ea. apply lookup_ge_None in Eb.
    unfold im_height in Hh. lia.
Qed.

Lemma px_hstack2_r a b (u v : nat) :
  well_formed a -> im_height b = im_height a ->
  px_at (hstack2 a b) (Z.of_nat (im_width a + u)) (Z.of_nat v)
  = px_at b (Z.of_nat u) (Z.of_nat v).
Proof.
  intros Hwf Hh. rewrite !px_at_nat. unfold hstack2. simpl.
  rewrite lookup_zip_with.
  destruct (im_rows b !! v) as [rb|] eqn:Eb; simpl.
  - destruct (im_rows a !! v) as [ra|] eqn:Ea; simpl.
    + unfold well_formed in Hwf. rewrite Forall_forall in Hwf.
      rewrite lookup_app_r; rewrite (Hwf ra) by (eapply list_elem_of_lookup_2, Ea);
        [|lia].
      f_equal. lia.
    + apply lookup_lt_Some in Eb. apply lookup_ge_None in Ea.
      unfold im_height in Hh. lia.
  - destruct (im_rows a !! v) as [ra|]; reflexivity.
Qed.

Lemma hcat_snoc tiles t :
  tiles <> [] -> hcat (tiles ++ [t]) = hstack2 (hcat tiles) t.
Proof.
  destruct tiles as [|t0 rest]; [congruence|]. intros _.
  unfold hcat. simpl. rewrite fold_left_app. reflexivity.
Qed.

Lemma vcat_snoc strips s :
  strips <> [] -> vcat (strips ++ [s]) = vstack2 (vcat strips) s.
Proof.
  destruct strips as [|t0 rest]; [congruence|]. intros _.
  unfold vcat. simpl. rewrite fold_left_app. reflexivity.
Qed.

(** A row of [n] tiles of [hh] by [ww] pixels: its shape and its pixels. *)
Lemma hcat_layout hh ww (tiles : list image) :
  tiles <> [] ->
  Forall (fun t => im_height t = hh /\ im_width t = ww /\ well_formed t) tiles ->
  im_height (hcat tiles) = hh
  /\ im_width (hcat tiles) = (length tiles * ww)%nat
  /\ well_formed (hcat tiles)
  /\ forall c t (x y : nat),
       tiles !! c = Some t -> (x < ww)%nat ->
       px_at (hcat tiles) (Z.of_nat (c * ww + x)) (Z.of_nat y)
       = px_at t (Z.of_nat x) (Z.of_nat y).
Proof.
  induction tiles as [|t tiles IH] using rev_ind; [congruence|]. intros _ Hall.
  apply Forall_app in Hall as [Hall Ht].
  destruct (Forall_inv Ht) as (Hth & Htw & Htwf).
  destruct tiles as [|t0 rest].
  - simpl. split; [exact Hth|]. split; [lia|]. split; [exact Htwf|].
    intros c t' x y Hc Hx. destruct c as [|c]; [|discriminate].
    injection Hc as <-. reflexivity.
  - destruct (IH ltac:(discriminate) Hall) as (Hh & Hw & Hwf & Hpx).
    rewrite hcat_snoc by discriminate.
    set (A := hcat (t0 :: rest)) in *.
    split; [rewrite hstack2_height; congruence|].
    split; [unfold hstack2; simpl; rewrite Hw, Htw, length_app; simpl; lia|].
    split; [apply hstack2_well_formed; assumption|].
    intros c t' x y Hc Hx.
    destruct (decide (c < length (t0 :: rest))%nat) as [Hlt|Hge].
    + rewrite lookup_app_l in Hc by exact Hlt.
      rewrite px_hstack2_l; [apply (Hpx c t' x y Hc Hx) | exact Hwf | congruence |].
      rewrite Hw. nia.
    + rewrite lookup_app_r in Hc by lia.
      destruct (c - length (t0 :: rest))%nat as [|k] eqn:Ek; [|destruct k; discriminate].
      injection Hc as <-.
      replace (c * ww + x)%nat with (im_width A + x)%nat by (rewrite Hw; nia).
      apply px_hstack2_r; [exact Hwf | congruence].
Qed.

Lemma px_vstack2 a b (u v : nat) :
  px_at (vstack2 a b) (Z.of_nat u) (Z.of_nat v)
  = if decide (v < im_height a)%nat then px_at a (Z.of_nat u) (Z.of_nat v)
    else px_at b (Z.of_nat u) (Z.of_nat (v - im_height a)).
Proof.
  rewrite !px_at_nat. unfold vstack2, im_height. simpl.
  destruct (decide (v < length (im_rows a))%nat) as [Hlt|Hge].
  - rewrite lookup_app_l by exact Hlt. reflexivity.
  - rewrite lookup_app_r by lia. reflexivity.
Qed.

(** A column of strips of [hh] rows each: its shape and its pixels. *)
Lemma vcat_layout hh ww (strips : list image) :
  strips <> [] ->
  Forall (fun s => im_height s = hh /\ im_width s = ww) strips ->
  im_height (vcat strips) = (length strips * hh)%nat
  /\ im_width (vcat strips) = ww
  /\ forall r s (x y : nat),
       strips !! r = Some s -> (y < hh)%nat ->
       px_at (vcat strips) (Z.of_nat x) (Z.of_nat (r * hh + y))
       = px_at s (Z.of_nat x) (Z.of_nat y).
Proof.
  induction strips as [|s strips IH] using rev_ind; [congruence|]. intros _ Hall.
  apply Forall_app in Hall as [Hall Hs].
  destruct (Forall_inv Hs) as (Hsh & Hsw).
  destruct strips as [|s0 rest].
  - simpl. split; [lia|]. split; [exact Hsw|].
    intros r s' x y Hr Hy. destruct r as [|r]; [|discriminate].
    injection Hr as <-. reflexivity.
  - destruct (IH ltac:(discriminate) Hall) as (Hh & Hw & Hpx).
    rewrite vcat_snoc by discriminate.
    set (A := vcat (s0 :: rest)) in *.
    split.
    { unfold vstack2, im_height. simpl. rewrite !length_app.
      unfold im_height in Hh, Hsh. rewrite Hh, Hsh. simpl. lia. }
    split; [exact Hw|].
    intros r s' x y Hr Hy. rewrite px_vstack2, Hh.
    destruct (decide (r < length (s0 :: rest))%nat) as [Hlt|Hge].
    + rewrite lookup_app_l in Hr by exact Hlt.
      destruct (decide _) as [_|Hbad]; [apply (Hpx r s' x y Hr Hy) | nia].
    + rewrite lookup_app_r in Hr by lia.
      destruct (r - length (s0 :: rest))%nat as [|k] eqn:Ek; [|destruct k; discriminate].
      injection Hr as <-.
      destruct (decide _) as [Hbad|_]; [nia|].
      f_equal. f_equal. nia.
Qed.

Lemma np_hstack_hcat hh tiles :
  tiles <> [] ->
  Forall (fun t => im_height t = hh) tiles ->
  np_hstack tiles = Ok (hcat tiles).
Proof.
  destruct tiles as [|t rest]; [congruence|]. intros _ Hall.
  inversion Hall as [|? ? Ht Hrest]; subst. unfold np_hstack, hcat.
  assert (E : forallb (fun x => Nat.eqb (im_height x) (im_height t)) rest = true).
  { apply forallb_forall. intros x Hx. apply Nat.eqb_eq.
    rewrite Forall_forall in Hrest. apply Hrest, list_elem_of_In, Hx. }
  rewrite E. reflexivity.
Qed.

Lemma np_vstack_vcat ww strips :
  strips <> [] ->
  Forall (fun s => im_width s = ww) strips ->
  np_vstack strips = Ok (vcat strips).
Proof.
  destruct strips as [|t rest]; [congruence|]. intros _ Hall.
  inversion Hall as [|? ? Ht Hrest]; subst. unfold np_vstack, vcat.
  assert (E : forallb (fun x => Nat.eqb (im_width x) (im_width t)) rest = true).
  { apply forallb_forall. intros x Hx. apply Nat.eqb_eq.
    rewrite Forall_forall in Hrest. apply Hrest, list_elem_of_In, Hx. }
  rewrite E. reflexivity.
Qed.

Lemma add_border_well_formed img t b l r :
  well_formed img -> well_formed (add_border img t b l r).
Proof.
  unfold well_formed, add_border. simpl. intros Hwf.
  rewrite !Forall_app. split; [|split].
  - apply Forall_replicate, length_replicate.
  - apply Forall_forall. intros row Hrow.
    apply list_elem_of_In, in_map_iff in Hrow as [row0 [<- Hrow0]].
    rewrite !length_app, !length_replicate.
    rewrite Forall_forall in Hwf. rewrite (Hwf row0) by (apply list_elem_of_In, Hrow0).
    lia.
  - apply Forall_replicate, length_replicate.
Qed.

Lemma px_zeros h w (x y : nat) :
  (x < w)%nat -> (y < h)%nat ->
  px_at (zeros h w) (Z.of_nat x) (Z.of_nat y) = Some black.
Proof.
  intros Hx Hy. rewrite px_at_nat. unfold zeros. simpl.
  rewrite lookup_replicate_2 by exact Hy. simpl.
  apply lookup_replicate_2, Hx.
Qed.

(** The pixels of a framed raster: the frame is black, the inside is the
    raster shifted by the margin. *)
Lemma px_add_border img p (x y : nat) :
  well_formed img ->
  (x < p + im_width img + p)%nat -> (y < p + im_height img + p)%nat ->
  px_at (add_border img p p p p) (Z.of_nat x) (Z.of_nat y)
  = if decide ((p <= x < p + im_width img)%nat /\ (p <= y < p + im_height img)%nat)
    then px_at img (Z.of_nat (x - p)) (Z.of_nat (y - p))
    else Some black.
Proof.
  intros Hwf Hx Hy. rewrite !px_at_nat. unfold add_border. cbn [im_rows].
  set (w := (p + im_width img + p)%nat).
  destruct (decide (y < p)%nat) as [Hy1|Hy1].
  { rewrite lookup_app_l by (rewrite length_replicate; exact Hy1).
    rewrite lookup_replicate_2 by exact Hy1. simpl.
    rewrite lookup_replicate_2 by exact Hx.
    destruct (decide _) as [[_ Hbad]|_]; [lia | reflexivity]. }
  rewrite lookup_app_r by (rewrite length_replicate; lia).
  rewrite length_replicate.
  destruct (decide (y < p + im_height img)%nat) as [Hy2|Hy2].
  - rewrite lookup_app_l by (rewrite length_map; unfold im_height in Hy2; lia).
    rewrite map_lookup.
    destruct (lookup_lt_is_Some_2 (im_rows img) (y - p)%nat) as [row Hrow];
      [unfold im_height in Hy2; lia|].
    rewrite Hrow. simpl.
    assert (Hlen : length row = im_width img).
    { unfold well_formed in Hwf. rewrite Forall_forall in Hwf.
      apply Hwf. eapply list_elem_of_lookup_2, Hrow. }
    destruct (decide (x < p)%nat) as [Hx1|Hx1].
    { rewrite lookup_app_l by (rewrite length_replicate; exact Hx1).
      rewrite lookup_replicate_2 by exact Hx1.
      destruct (decide _) as [[Hbad _]|_]; [lia | reflexivity]. }
    rewrite lookup_app_r by (rewrite length_replicate; lia).
    rewrite length_replicate.
    destruct (decide (x < p + im_width img)%nat) as [Hx2|Hx2].
    + rewrite lookup_app_l by lia.
      destruct (decide _) as [_|Hbad]; [reflexivity | lia].
    + rewrite lookup_app_r by lia.
      rewrite lookup_replicate_2 by lia.
      destruct (decide _) as [[Hbad _]|_]; [lia | reflexivity].
  - rewrite lookup_app_r by (rewrite length_map; unfold im_height in Hy2; lia).
    rewrite length_map.
    rewrite lookup_replicate_2 by (unfold im_height in *; lia). simpl.
    rewrite lookup_replicate_2 by exact Hx.
    destruct (decide _) as [[_ Hbad]|_]; [lia | reflexivity].
Qed.

Lemma slice_chunk {A} (tiles : list A) g (k : nat) :
  0 < g ->
  slice tiles (0 + Z.of_nat k * g) (0 + Z.of_nat k * g + g)
  = take (Z.to_nat g) (drop (k * Z.to_nat g) tiles).
Proof.
  intros Hg. unfold slice. f_equal; [f_equal; lia | f_equal; nia].
Qed.

(** The stacking phase of [mosaic] on [g * gh] tiles of one shape places
    tile [r * g + c] in row [r] and column [c] of the grid. *)
Lemma mosaic_stack_layout (tiles : list image) g gh hh ww :
  0 < g -> 0 < gh ->
  length tiles = Z.to_nat (g * gh) ->
  Forall (fun t => im_height t = hh /\ im_width t = ww /\ well_formed t) tiles ->
  exists out,
    (let? starts := range_step 0 (Z.of_nat (length tiles)) g in
     let? hstack := map_res (fun j => np_hstack (slice tiles j (j + g))) starts in
     if (1 <? length hstack)%nat then np_vstack hstack else get_res hstack 0)
    = Ok out
    /\ forall (r c x y : nat) t,
         (c < Z.to_nat g)%nat ->
         tiles !! (r * Z.to_nat g + c)%nat = Some t ->
         (x < ww)%nat -> (y < hh)%nat ->
         px_at out (Z.of_nat (c * ww + x)) (Z.of_nat (r * hh + y))
         = px_at t (Z.of_nat x) (Z.of_nat y).
Proof.
  intros Hg Hgh Hlen Hall.
  set (chunk := fun k : nat => take (Z.to_nat g) (drop (k * Z.to_nat g) tiles)).
  assert (Hchunk : forall k, (k < Z.to_nat gh)%nat ->
            chunk k <> []
            /\ Forall (fun t => im_height t = hh /\ im_width t = ww /\ well_formed t)
                      (chunk k)
            /\ length (chunk k) = Z.to_nat g).
  { intros k Hk.
    assert (Hl : length (chunk k) = Z.to_nat g).
    { unfold chunk. rewrite length_take, length_drop, Hlen. nia. }
    split; [|split; [|exact Hl]].
    - intros E. rewrite E in Hl. simpl in Hl. lia.
    - unfold chunk. apply Forall_take, Forall_drop, Hall. }
  set (strips := map (fun k => hcat (chunk k)) (seq 0 (Z.to_nat gh))).
  assert (Hstrips : Forall (fun s => im_height s = hh
                                     /\ im_width s = (Z.to_nat g * ww)%nat) strips).
  { apply Forall_forall. intros s Hs.
    apply list_elem_of_In, in_map_iff in Hs as [k [<- Hk]]. apply in_seq in Hk.
    destruct (Hchunk k ltac:(lia)) as (Hne & Hc & Hl).
    destruct (hcat_layout hh ww (chunk k) Hne Hc) as (H1 & H2 & _).
    rewrite Hl in H2. auto. }
  assert (Hsne : strips <> []).
  { unfold strips. destruct (Z.to_nat gh) eqn:E; [lia | discriminate]. }
  exists (vcat strips). split.
  - unfold range_step. destruct (g =? 0) eqn:Eg; [lia|]. cbn [rbind].
    rewrite Hlen, Z2Nat.id, Z.sub_0_r, ceil_div_mul by lia.
    rewrite (map_res_Ok _ (fun j => hcat (slice tiles j (j + g)))).
    + cbn [rbind]. rewrite map_map.
      rewrite (map_ext _ (fun k => hcat (chunk k)))
        by (intros k; rewrite slice_chunk by exact Hg; reflexivity).
      fold strips.
      destruct (1 <? length strips)%nat eqn:E1.
      * apply (np_vstack_vcat (Z.to_nat g * ww)%nat); [exact Hsne|].
        eapply Forall_impl; [exact Hstrips|]. intros s [_ Hw]. exact Hw.
      * apply Nat.ltb_ge in E1.
        destruct strips as [|s [|s' strips']]; [congruence | reflexivity |].
        simpl in E1. lia.
    + intros j Hj. apply list_elem_of_In, in_map_iff in Hj as [k [<- Hk]].
      apply in_seq in Hk. rewrite slice_chunk by exact Hg.
      destruct (Hchunk k ltac:(lia)) as (Hne & Hc & _).
      apply (np_hstack_hcat hh); [exact Hne|].
      eapply Forall_impl; [exact Hc|]. intros t [Ht _]. exact Ht.
  - intros r c x y t Hc Ht Hx Hy.
    assert (Hr : (r < Z.to_nat gh)%nat).
    { apply lookup_lt_Some in Ht. rewrite Hlen in Ht. nia. }
    destruct (vcat_layout hh (Z.to_nat g * ww)%nat strips Hsne Hstrips) as (_ & _ & Hv).
    rewrite (Hv r (hcat (chunk r)) (c * ww + x)%nat y).
    + destruct (Hchunk r Hr) as (Hne & Hch & _).
      destruct (hcat_layout hh ww (chunk r) Hne Hch) as (_ & _ & _ & Hh).
      apply Hh; [|exact Hx].
      unfold chunk. rewrite lookup_take.
      destruct (decide (c < Z.to_nat g)%nat) as [_|Hbad]; [|lia].
      rewrite lookup_drop. exact Ht.
    + unfold strips. rewrite map_lookup, lookup_seq_lt by exact Hr. reflexivity.
    + exact Hy.
Qed.

Section MosaicLayout.
Context `{cv : Cv2}.

Lemma cell_well_formed (items : list image) tw th pad j :
  well_formed
    (add_border
       match items !! j with
       | Some it => resize it tw th
       | None => zeros th tw
       end pad pad pad pad).
Proof.
  apply add_border_well_formed. destruct (items !! j).
  - apply resize_well_formed.
  - apply zeros_well_formed.
Qed.

End MosaicLayout.


(** ** The further properties on concrete inputs *)

Lemma render_bbox2d_default_is_all_red_witness :
  [zeros 3 4] !! 0%nat = Some (zeros 3 4)
  /\ render_bbox2d_on_image (cv := sample_cv2) 0%nat [(1, 1, 1, 1)%Q] None None [zeros 3 4]
     = render_bbox2d_on_image (cv := sample_cv2) 0%nat [(1, 1, 1, 1)%Q]
         (Some [COLOR_RED]) None [zeros 3 4].
Proof.
  split; [reflexivity|].
  exact (render_bbox2d_default_is_all_red (cv := sample_cv2) 0%nat [(1, 1, 1, 1)%Q]
           None (zeros 3 4) [zeros 3 4] eq_refl).
Defined.




Lemma render_bbox2d_no_boxes_witness :
  render_bbox2d_on_image (cv := sample_cv2) 0%nat [] None (Some []) [zeros 3 4]
  = (Ok 0%nat, [zeros 3 4])
  /\ render_bbox2d_on_image (cv := sample_cv2) 0%nat [] (Some [COLOR_RED]) (Some [])
       [zeros 3 4]
     = (Raise (AssertionError "len(boxes) != len(colors)"), [zeros 3 4]).
Proof.
  destruct (render_bbox2d_no_boxes (cv := sample_cv2) 0%nat (Some []) (zeros 3 4)
              [zeros 3 4] eq_refl eq_refl) as (H1 & _ & H3).
  split; [exact H1 | apply H3].
Defined.

Lemma render_point_cloud_same_shape_witness :
  exists raster',
    snd (render_point_cloud small_canvas [(0, 0, 7)%Q; (5, 5, 5)%Q] [zeros 3 3])
    = <[0%nat := raster']> [zeros 3 3]
    /\ shape raster' = (3, 3).
Proof.
  destruct (render_point_cloud_same_shape (cv := sample_cv2) small_canvas
              [(0, 0, 7)%Q; (5, 5, 5)%Q] (zeros 3 3) [zeros 3 3] eq_refl)
    as [raster' (Hrun & Hshape & _)].
  exists raster'. split; [exact Hrun | exact Hshape].
Defined.

Lemma render_point_cloud_accumulates_witness :
  let '(r1, h1) := render_point_cloud small_canvas [(0, 0, 7)%Q] [zeros 3 3] in
  r1 = Ok tt
  /\ render_point_cloud small_canvas [((1 # 3), 0, 2)%Q] h1
     = render_point_cloud small_canvas [(0, 0, 7)%Q; ((1 # 3), 0, 2)%Q] [zeros 3 3].
Proof.
  exact (render_point_cloud_accumulates (cv := sample_cv2) small_canvas
           [(0, 0, 7)%Q] [((1 # 3), 0, 2)%Q] 0%nat 1%nat (zeros 3 3) [zeros 3 3]
           eq_refl eq_refl eq_refl).
Defined.

Lemma render_point_cloud_idempotent_witness :
  render_point_cloud small_canvas [(0, 0, 7)%Q]
    (snd (render_point_cloud small_canvas [(0, 0, 7)%Q] [zeros 3 3]))
  = render_point_cloud small_canvas [(0, 0, 7)%Q] [zeros 3 3].
Proof.
  exact (render_point_cloud_idempotent (cv := sample_cv2) small_canvas [(0, 0, 7)%Q]
           0%nat 1%nat (zeros 3 3) [zeros 3 3] eq_refl eq_refl eq_refl).
Defined.

Lemma render_point_cloud_order_witness :
  render_point_cloud small_canvas [(0, 0, 7)%Q; ((1 # 3), 0, 2)%Q] [zeros 3 3]
  = render_point_cloud small_canvas [((1 # 3), 0, 2)%Q; (0, 0, 7)%Q] [zeros 3 3].
Proof.
  apply (render_point_cloud_order (cv := sample_cv2)). apply perm_swap.
Defined.


Lemma bev_axis_out_of_range_witness :
  let self := {| _metric_width := 1; _metric_height := 1; _pixels_per_meter := 3;
                 _xaxis := 0; _yaxis := 3; _center_pixel := (1, 1); data := 0%nat |} in
  render_point_cloud self [] [zeros 3 3]
  = (Raise IndexError, [zeros 3 3])
  /\ render_bounding_box_3d (cv := sample_cv2) self [unit_box] None None [zeros 3 3]
     = (Raise IndexError, [zeros 3 3]).
Proof.
  intros self.
  destruct (bev_axis_out_of_range (cv := sample_cv2) self [zeros 3 3]) as [H1 H2].
  - right. right. simpl. lia.
  - split; [apply H1 | apply H2].
Defined.




Lemma render_bounding_box_3d_same_shape_witness :
  exists raster',
    snd (render_bounding_box_3d (cv := sample_cv2) small_canvas [unit_box]
           (Some COLOR_BLUE) None [zeros 3 3]) = <[0%nat := raster']> [zeros 3 3]
    /\ shape raster' = (3, 3).
Proof.
  destruct (render_bounding_box_3d_same_shape (cv := sample_cv2) small_canvas [unit_box]
              (Some COLOR_BLUE) (zeros 3 3) [zeros 3 3] eq_refl)
    as [raster' (Hrun & Hshape & _)].
  exists raster'. split; [exact Hrun | exact Hshape].
Defined.



Lemma mosaic_grid_covers_witness :
  mosaic_grid_width 5 None = 3
  /\ ceil_div 5 (mosaic_grid_width 5 None) = 2
  /\ 5 <= mosaic_grid_width 5 None * ceil_div 5 (mosaic_grid_width 5 None) < 5 + 3.
Proof.
  destruct (mosaic_grid_covers 5 None) as (_ & _ & H & _); [lia | exact I |].
  split; [reflexivity|]. split; [reflexivity | exact H].
Defined.



